(** * libxmlb: the node view (xb-node.c) and the command line tool (xb-tool.c)

    A shallow embedding of the read-side API of the binary XML silo:
    the [XbNode] traversal, projection and query helpers of
    [src/xb-node.c], and the dispatch and exit path of [src/xb-tool.c].

    Conventions used throughout:
    - a C pointer that may be [NULL] is an [option];
    - [guint] is [N], [guint64] is a [Z] in the range [0, 2^64);
    - the [GError **error] out-parameter is threaded as the content of
      [*error] (a [GErrorSlot]);
    - reading a [GPtrArray] past its length has no defined result and is
      tracked by the [mem] monad. *)

From Stdlib Require Import ZArith NArith Ascii String List Lia Bool.
From stdpp Require Import base option gmap strings list fin_maps.

Local Open Scope string_scope.
Local Open Scope Z_scope.

(** ** GLib: errors *)

Module GLib.

(** A [GQuark] is an interned string; the two domains the sources use. *)
Definition GQuark := string.
Definition G_IO_ERROR : GQuark := "g-io-error-quark".
Definition G_OPTION_ERROR : GQuark := "g-option-context-error-quark".

(** [GIOErrorEnum] members used by the repository (gioenums.h). *)
Definition G_IO_ERROR_FAILED : Z := 0.
Definition G_IO_ERROR_NOT_FOUND : Z := 1.
Definition G_IO_ERROR_INVALID_ARGUMENT : Z := 13.

Record GError := mkGError {
  domain : GQuark;
  code : Z;
  message : string
}.

(** The content of [*error]: [None] while no error has been set. *)
Definition GErrorSlot := option GError.

(** [g_set_error_literal]: fills an empty slot; a slot that already holds
    an error is left alone (GLib only warns). *)
Definition g_set_error_literal (error : GErrorSlot) (d : GQuark) (c : Z)
    (m : string) : GErrorSlot :=
  match error with
  | None => Some (mkGError d c m)
  | Some e => Some e
  end.

(** A callee that fails with [e] reports it through the same slot. *)
Definition g_propagate (error : GErrorSlot) (e : GError) : GErrorSlot :=
  g_set_error_literal error (domain e) (code e) (message e).

Definition g_error_matches (error : GErrorSlot) (d : GQuark) (c : Z) : bool :=
  match error with
  | None => false
  | Some e => String.eqb (domain e) d && (code e =? c)
  end.

(** ** GLib: strings *)

(** [g_str_has_prefix (str, prefix)]. *)
Definition g_str_has_prefix (str pfx : string) : bool := String.prefix pfx str.

(** [g_strjoin (separator, ..., NULL)]: the variadic list stops at the
    first [NULL] argument, so the arguments are given as pointers and
    everything from the first [None] on is dropped. *)
Fixpoint strjoin_args (args : list (option string)) : list string :=
  match args with
  | Some s :: rest => s :: strjoin_args rest
  | _ => []
  end.

Fixpoint strjoinv (sep : string) (l : list string) : string :=
  match l with
  | [] => EmptyString
  | [s] => s
  | s :: rest => s ++ sep ++ strjoinv sep rest
  end.

Definition g_strjoin (sep : string) (args : list (option string)) : string :=
  strjoinv sep (strjoin_args args).

(** [g_strcmp0 (a, b) == 0] on possibly-[NULL] strings. *)
Definition g_strcmp0_eq (a b : option string) : bool :=
  match a, b with
  | None, None => true
  | Some x, Some y => String.eqb x y
  | _, _ => false
  end.

(** ** GLib: [g_ascii_strtoull]

    The locale-independent unsigned parser.  GLib hands the call to the
    host's [strtoull_l] in the C locale, and keeps a copy of that code
    ([g_parse_long_long] in gstrfuncs.c) for hosts without it.  Both scan
    alike: leading white space and one sign are skipped, base 16 accepts
    a further [0x]/[0X], digits are read while they are below the base,
    and nothing read gives 0.  A number that fits is negated as a
    [guint64] behind a minus sign.  A number that overflows gives
    [G_MAXUINT64]: the host returns it as it is, also behind a minus
    sign, and the model follows the host. *)

Definition G_MAXUINT64 : Z := 2 ^ 64 - 1.

Definition chr (c : ascii) : Z := Z.of_nat (nat_of_ascii c).

Definition ISSPACE (c : ascii) : bool :=
  let n := chr c in
  (n =? 32) || (n =? 12) || (n =? 10) || (n =? 13) || (n =? 9) || (n =? 11).

Definition ISUPPER (c : ascii) : bool := (65 <=? chr c) && (chr c <=? 90).
Definition ISLOWER (c : ascii) : bool := (97 <=? chr c) && (chr c <=? 122).
Definition ISALPHA (c : ascii) : bool := ISUPPER c || ISLOWER c.
Definition TOUPPER (c : ascii) : Z := if ISLOWER c then chr c - 97 + 65 else chr c.

Definition g_ascii_isdigit (c : ascii) : bool :=
  (48 <=? chr c) && (chr c <=? 57).

(** The value of one character as a digit, before the base test. *)
Definition digit_value (c : ascii) : option Z :=
  if g_ascii_isdigit c then Some (chr c - 48)
  else if ISALPHA c then Some (TOUPPER c - 65 + 10)
  else None.

Fixpoint skip_space (s : string) : string :=
  match s with
  | String c rest => if ISSPACE c then skip_space rest else s
  | EmptyString => s
  end.

(** The digit loop: returns the accumulator, the overflow flag and
    whether at least one character was consumed ([s != save]). *)
Fixpoint parse_digits (base cutoff cutlim : Z) (s : string) (ui64 : Z)
    (overflow moved : bool) : Z * bool * bool :=
  match s with
  | EmptyString => (ui64, overflow, moved)
  | String c rest =>
      match digit_value c with
      | None => (ui64, overflow, moved)
      | Some d =>
          if d >=? base then (ui64, overflow, moved)
          else if (ui64 >? cutoff) || ((ui64 =? cutoff) && (d >? cutlim))
          then parse_digits base cutoff cutlim rest ui64 true true
          else parse_digits base cutoff cutlim rest (ui64 * base + d) overflow true
      end
  end.

(** "Check for a sign": the flag and the rest of the string. *)
Definition read_sign (s : string) : bool * string :=
  match s with
  | String c rest =>
      if chr c =? 45 then (true, rest)
      else if chr c =? 43 then (false, rest)
      else (false, s)
  | EmptyString => (false, s)
  end.

(** "Recognize number prefix and if BASE is zero, figure it out
    ourselves": the base to use and the rest of the string.  The
    character after the [0] is [NUL] at the end of the string. *)
Definition read_prefix (base : Z) (s : string) : Z * string :=
  match s with
  | String c rest =>
      if chr c =? 48 then
        let after :=
          match rest with
          | String x rest' => Some (x, rest')
          | EmptyString => None
          end in
        match after with
        | Some (x, rest') =>
            if ((base =? 0) || (base =? 16)) && (TOUPPER x =? 88)
            then (16, rest')
            else if base =? 0 then (8, s) else (base, s)
        | None => if base =? 0 then (8, s) else (base, s)
        end
      else if base =? 0 then (10, s) else (base, s)
  | EmptyString => if base =? 0 then (10, s) else (base, s)
  end.

(** The scan: the number read, the [negative] flag and the [overflow]
    flag; nothing read counts as 0 without overflow. *)
Definition strtoull_scan (nptr : string) (base : Z) : Z * bool * bool :=
  if (base =? 1) || (base >? 36) then (0, false, false)
  else
    let s := skip_space nptr in
    match s with
    | EmptyString => (0, false, false)
    | String _ _ =>
        let '(negative, s) := read_sign s in
        let '(base, s) := read_prefix base s in
        let cutoff := G_MAXUINT64 / base in
        let cutlim := G_MAXUINT64 mod base in
        let '(ui64, overflow, moved) :=
          parse_digits base cutoff cutlim s 0 false false in
        if negb moved then (0, negative, false)
        else (ui64, negative, overflow)
    end.

(** The end of the host's parser: [ULLONG_MAX] on overflow, whatever the
    sign; otherwise [negative ? -i : i] on [guint64]. *)
Definition g_ascii_strtoull (nptr : string) (base : Z) : Z :=
  let '(result, negative, overflow) := strtoull_scan nptr base in
  if overflow then G_MAXUINT64
  else if negative then (- result) mod 2 ^ 64 else result.

(** [tmp + 2]: the string two characters further on. *)
Definition str_skip (n : nat) (s : string) : string :=
  String.substring n (String.length s - n) s.

End GLib.

Export GLib.

(** ** Memory-safety outcome *)

(** [Undefined] records that the C code read outside an array. *)
Inductive mem (A : Type) : Type :=
  | Defined (a : A)
  | Undefined.
Arguments Defined {A} a.
Arguments Undefined {A}.

Definition mem_bind {A B : Type} (m : mem A) (k : A -> mem B) : mem B :=
  match m with
  | Defined a => k a
  | Undefined => Undefined
  end.

Notation "'let!' x ':=' m 'in' k" := (mem_bind m (fun x => k))
  (at level 10, x name, m at level 100, k at level 200).

(** A [while] loop run with fuel: it finished and gave its result, or it
    was still running when the fuel ran out. *)
Inductive loop (A : Type) : Type :=
  | Finished (a : A)
  | OutOfFuel.
Arguments Finished {A} a.
Arguments OutOfFuel {A}.

(** [g_ptr_array_index (array, i)]: no bounds check. *)
Definition g_ptr_array_index {A : Type} (array : list A) (i : nat) : mem A :=
  match nth_error array i with
  | Some x => Defined x
  | None => Undefined
  end.

(** ** The silo interface seen from xb-node.c

    [xb-silo.c], [xb-silo-query.c] and [xb-silo-export.c] are not part of
    the sources at hand; the node view reaches them through the calls
    below ([xb-node-private.h], [xb-silo-query-private.h]).  A function
    that returns a pointer returns an [option]; the two functions that
    take a [GError **] return a sum whose left side is the error they
    set. *)

Inductive XbNodeExportFlag :=
  | XB_NODE_EXPORT_FLAG_ADD_HEADER
  | XB_NODE_EXPORT_FLAG_FORMAT_MULTILINE
  | XB_NODE_EXPORT_FLAG_FORMAT_INDENT
  | XB_NODE_EXPORT_FLAG_INCLUDE_SIBLINGS.

(** The bit mask, as the list of the bits that are set. *)
Definition XbNodeExportFlags := list XbNodeExportFlag.
Definition XB_NODE_EXPORT_FLAG_NONE : XbNodeExportFlags := [].

Definition GBytes := list Byte.byte.

(** [struct _XbNode]: the silo, the silo node, and the keyed data that
    [GObject] keeps for the instance. *)
Record XbNode (XbSilo XbSiloNode : Type) := mkXbNode {
  silo : XbSilo;
  sn : XbSiloNode;
  qdata : gmap string GBytes
}.
Arguments mkXbNode {XbSilo XbSiloNode} _ _ _.
Arguments silo {XbSilo XbSiloNode} _.
Arguments sn {XbSilo XbSiloNode} _.
Arguments qdata {XbSilo XbSiloNode} _.

Class XbSiloApi (XbSilo XbSiloNode : Type) := {
  xb_silo_get_sroot : XbSilo -> option XbSiloNode;
  xb_silo_node_get_parent : XbSilo -> XbSiloNode -> option XbSiloNode;
  xb_silo_node_get_next : XbSilo -> XbSiloNode -> option XbSiloNode;
  xb_silo_node_get_child : XbSilo -> XbSiloNode -> option XbSiloNode;
  xb_silo_node_get_text : XbSilo -> XbSiloNode -> option string;
  xb_silo_node_get_element : XbSilo -> XbSiloNode -> option string;
  xb_silo_node_get_attr : XbSilo -> XbSiloNode -> string -> option string;
  xb_silo_node_get_depth : XbSilo -> XbSiloNode -> N;
  xb_silo_query_with_root :
    XbSilo -> option (XbNode XbSilo XbSiloNode) -> string -> N ->
    GError + list (XbNode XbSilo XbSiloNode);
  xb_silo_export_with_root :
    XbSilo -> option (XbNode XbSilo XbSiloNode) -> XbNodeExportFlags ->
    GError + string
}.

(** ** xb-node.c *)

Section Node.

Context {XbSilo XbSiloNode : Type} `{!XbSiloApi XbSilo XbSiloNode}.

Local Abbreviation Node := (XbNode XbSilo XbSiloNode).

(** [xb_node_new]: stores the two pointers; the instance starts without
    keyed data. *)
Definition xb_node_new (s : XbSilo) (n : XbSiloNode) : Node :=
  mkXbNode s n ∅.

(** Modelled from the spec: [xb_silo_node_create] of xb-silo.c, which is
    not among the sources.  "Node views are created on demand by the
    silo": given a silo reference and a silo node it produces a node
    view, without validation. *)
Definition xb_silo_node_create (s : XbSilo) (n : XbSiloNode) : Node :=
  xb_node_new s n.

(** [xb_node_get_data]. *)
Definition xb_node_get_data (self : option Node) (key : option string)
    : option GBytes :=
  match self with
  | None => None
  | Some n =>
      match key with
      | None => None
      | Some k => qdata n !! k
      end
  end.

(** [xb_node_set_data]: returns nothing; the result here is the instance
    after the call. *)
Definition xb_node_set_data (self : option Node) (key : option string)
    (data : option GBytes) : option Node :=
  match self with
  | None => None
  | Some n =>
      match key with
      | None => Some n
      | Some k =>
          match data with
          | None => Some n
          | Some d => Some (mkXbNode (silo n) (sn n) (<[k := d]> (qdata n)))
          end
      end
  end.

(** [xb_node_get_sn] and [xb_node_get_silo] read the field without any
    check; they are only defined on a valid instance. *)
Definition xb_node_get_sn (self : Node) : XbSiloNode := sn self.
Definition xb_node_get_silo (self : Node) : XbSilo := silo self.

Definition xb_node_get_root (self : option Node) : option Node :=
  match self with
  | None => None
  | Some n =>
      match xb_silo_get_sroot (silo n) with
      | None => None
      | Some x => Some (xb_silo_node_create (silo n) x)
      end
  end.

Definition xb_node_get_parent (self : option Node) : option Node :=
  match self with
  | None => None
  | Some n =>
      match xb_silo_node_get_parent (silo n) (sn n) with
      | None => None
      | Some x => Some (xb_silo_node_create (silo n) x)
      end
  end.

Definition xb_node_get_next (self : option Node) : option Node :=
  match self with
  | None => None
  | Some n =>
      match xb_silo_node_get_next (silo n) (sn n) with
      | None => None
      | Some x => Some (xb_silo_node_create (silo n) x)
      end
  end.

Definition xb_node_get_child (self : option Node) : option Node :=
  match self with
  | None => None
  | Some n =>
      match xb_silo_node_get_child (silo n) (sn n) with
      | None => None
      | Some x => Some (xb_silo_node_create (silo n) x)
      end
  end.

(** The [while (n != NULL)] loop of [xb_node_get_children], one unit of
    fuel per round. *)
Fixpoint children_loop (fuel : nat) (n : option Node) (array : list Node)
    : loop (list Node) :=
  match n with
  | None => Finished array
  | Some x =>
      match fuel with
      | O => OutOfFuel
      | S fuel' => children_loop fuel' (xb_node_get_next (Some x)) (array ++ [x])
      end
  end.

(** [xb_node_get_children] has no check of [self]: the array is
    allocated first and is what the function returns, never [NULL]. *)
Definition xb_node_get_children (fuel : nat) (self : option Node)
    : loop (list Node) :=
  children_loop fuel (xb_node_get_child self) [].

Definition xb_node_get_text (self : option Node) : option string :=
  match self with
  | None => None
  | Some n => xb_silo_node_get_text (silo n) (sn n)
  end.

Definition xb_node_get_element (self : option Node) : option string :=
  match self with
  | None => None
  | Some n => xb_silo_node_get_element (silo n) (sn n)
  end.

Definition xb_node_get_attr (self : option Node) (name : option string)
    : option string :=
  match self with
  | None => None
  | Some n =>
      match name with
      | None => None
      | Some a => xb_silo_node_get_attr (silo n) (sn n) a
      end
  end.

Definition xb_node_get_depth (self : option Node) : N :=
  match self with
  | None => 0%N
  | Some n => xb_silo_node_get_depth (silo n) (sn n)
  end.

(** What the caller sees of a call that takes [error]: [NULL] and the
    error in the slot, or the result and the slot as it was. *)
Definition returned {A : Type} (r : GError + A) (error : GErrorSlot)
    : option A * GErrorSlot :=
  match r with
  | inl e => (None, g_propagate error e)
  | inr a => (Some a, error)
  end.

(** The string handed to the evaluator. *)
Definition xpath_with_element (self : Node) (xpath : string) : string :=
  g_strjoin "/" [xb_node_get_element (Some self); Some xpath].

Definition xb_node_query (self : option Node) (xpath : option string)
    (limit : N) (error : GErrorSlot) : option (list Node) * GErrorSlot :=
  match self with
  | None => (None, error)
  | Some n =>
      match xpath with
      | None => (None, error)
      | Some xp =>
          let xpath2 := xpath_with_element n xp in
          returned
            (xb_silo_query_with_root (xb_node_get_silo n) self xpath2 limit)
            error
      end
  end.

(** The tail of [xb_node_query_first]: [NULL] results give [NULL],
    otherwise element 0 of the array is returned. *)
Definition first_match (r : option (list Node) * GErrorSlot)
    : mem (option Node * GErrorSlot) :=
  match r with
  | (None, error') => Defined (None, error')
  | (Some results, error') =>
      let! n := g_ptr_array_index results 0 in
      Defined (Some n, error')
  end.

Definition xb_node_query_first (self : option Node) (xpath : option string)
    (error : GErrorSlot) : mem (option Node * GErrorSlot) :=
  match self with
  | None => Defined (None, error)
  | Some n =>
      match xpath with
      | None => Defined (None, error)
      | Some xp =>
          let xpath2 := xpath_with_element n xp in
          first_match
            (returned
               (xb_silo_query_with_root (xb_node_get_silo n) self xpath2 1)
               error)
      end
  end.

(** The tail of [xb_node_query_text], after [xb_node_query_first]. *)
Definition text_of_match (r : option Node * GErrorSlot)
    : option string * GErrorSlot :=
  match r with
  | (None, error') => (None, error')
  | (Some n, error') =>
      match xb_node_get_text (Some n) with
      | None =>
          (None,
           g_set_error_literal error' G_IO_ERROR G_IO_ERROR_NOT_FOUND
             "no text data")
      | Some tmp => (Some tmp, error')
      end
  end.

Definition xb_node_query_text (self : option Node) (xpath : option string)
    (error : GErrorSlot) : mem (option string * GErrorSlot) :=
  match self with
  | None => Defined (None, error)
  | Some _ =>
      match xpath with
      | None => Defined (None, error)
      | Some _ =>
          let! r := xb_node_query_first self xpath error in
          Defined (text_of_match r)
      end
  end.

Definition xb_node_export (self : option Node) (flags : XbNodeExportFlags)
    (error : GErrorSlot) : option string * GErrorSlot :=
  match self with
  | None => (None, error)
  | Some n =>
      returned (xb_silo_export_with_root (xb_node_get_silo n) self flags) error
  end.

(** The tail of [xb_node_query_export]. *)
Definition export_of_match (r : option Node * GErrorSlot)
    : option string * GErrorSlot :=
  match r with
  | (None, error') => (None, error')
  | (Some n, error') => xb_node_export (Some n) XB_NODE_EXPORT_FLAG_NONE error'
  end.

Definition xb_node_query_export (self : option Node) (xpath : option string)
    (error : GErrorSlot) : mem (option string * GErrorSlot) :=
  match self with
  | None => Defined (None, error)
  | Some _ =>
      match xpath with
      | None => Defined (None, error)
      | Some _ =>
          let! r := xb_node_query_first self xpath error in
          Defined (export_of_match r)
      end
  end.

(** The two calls of [g_ascii_strtoull] at the end of
    [xb_node_query_text_as_uint]. *)
Definition text_as_uint (tmp : string) : Z :=
  if g_str_has_prefix tmp "0x"
  then g_ascii_strtoull (str_skip 2 tmp) 16
  else g_ascii_strtoull tmp 10.

(** The tail of [xb_node_query_text_as_uint]. *)
Definition uint_of_match (r : option Node * GErrorSlot) : Z * GErrorSlot :=
  match r with
  | (None, error') => (G_MAXUINT64, error')
  | (Some n, error') =>
      match xb_node_get_text (Some n) with
      | None =>
          (G_MAXUINT64,
           g_set_error_literal error' G_IO_ERROR G_IO_ERROR_NOT_FOUND
             "no text data")
      | Some tmp => (text_as_uint tmp, error')
      end
  end.

Definition xb_node_query_text_as_uint (self : option Node)
    (xpath : option string) (error : GErrorSlot) : mem (Z * GErrorSlot) :=
  match self with
  | None => Defined (G_MAXUINT64, error)
  | Some _ =>
      match xpath with
      | None => Defined (G_MAXUINT64, error)
      | Some _ =>
          let! r := xb_node_query_first self xpath error in
          Defined (uint_of_match r)
      end
  end.

(** The silo nodes met from [o] by following the [next] link until it is
    absent, in that order. *)
Inductive sibling_chain_from (s : XbSilo)
    : option XbSiloNode -> list XbSiloNode -> Prop :=
  | chain_end : sibling_chain_from s None []
  | chain_step (x : XbSiloNode) (l : list XbSiloNode) :
      sibling_chain_from s (xb_silo_node_get_next s x) l ->
      sibling_chain_from s (Some x) (x :: l).

(** The views met from [o] by following [xb_node_get_next] until it
    answers with nothing, in that order. *)
Inductive follows_next : option Node -> list Node -> Prop :=
  | follows_end : follows_next None []
  | follows_step (x : Node) (l : list Node) :
      follows_next (xb_node_get_next (Some x)) l ->
      follows_next (Some x) (x :: l).

(** What a traversal returns for the answer [prim] of the silo: nothing
    for nothing, otherwise a new view of that node in the same silo. *)
Definition view_of (s : XbSilo) (prim : option XbSiloNode) : option Node :=
  match prim with
  | None => None
  | Some x => Some (mkXbNode s x ∅)
  end.

End Node.

(** ** A packed silo

    Modelled from the spec: the silo of xb-silo.c, which is not among the
    sources.  "Logically a forest whose primitive unit is a silo node
    identified by an offset into the blob.  Each silo node carries:
    element name (index into string pool), optional text (index or
    absent), attribute list (sequence of name/value index pairs),
    parent/next/child links expressed as offsets, and a depth."  The blob
    is the list of its nodes and an offset is a position in that list. *)

Module PackedSilo.

Record SiloNode := mkSiloNode {
  element_name : nat;
  text : option nat;
  attrs : list (nat * nat);
  parent : option nat;
  next : option nat;
  child : option nat;
  depth : N
}.

Record Silo := mkSilo {
  strtab : list string;
  nodes : list SiloNode;
  sroot : option nat
}.

Abbreviation PNode := (XbNode Silo nat).

Definition from_strtab (s : Silo) (idx : nat) : option string :=
  nth_error (strtab s) idx.

Definition get_node (s : Silo) (off : nat) : option SiloNode :=
  nth_error (nodes s) off.

Definition get_sroot (s : Silo) : option nat := sroot s.

Definition node_get_parent (s : Silo) (off : nat) : option nat :=
  match get_node s off with Some n => parent n | None => None end.

Definition node_get_next (s : Silo) (off : nat) : option nat :=
  match get_node s off with Some n => next n | None => None end.

Definition node_get_child (s : Silo) (off : nat) : option nat :=
  match get_node s off with Some n => child n | None => None end.

Definition node_get_element (s : Silo) (off : nat) : option string :=
  match get_node s off with
  | Some n => from_strtab s (element_name n)
  | None => None
  end.

Definition node_get_text (s : Silo) (off : nat) : option string :=
  match get_node s off with
  | Some n =>
      match text n with
      | Some idx => from_strtab s idx
      | None => None
      end
  | None => None
  end.

(** "Attribute lookup is case-sensitive and linear in the attribute
    count"; with duplicate names the first occurrence is returned. *)
Fixpoint lookup_attr (s : Silo) (l : list (nat * nat)) (name : string)
    : option string :=
  match l with
  | [] => None
  | (k, v) :: rest =>
      match from_strtab s k with
      | Some kn => if String.eqb kn name then from_strtab s v
                   else lookup_attr s rest name
      | None => lookup_attr s rest name
      end
  end.

Definition node_get_attr (s : Silo) (off : nat) (name : string)
    : option string :=
  match get_node s off with
  | Some n => lookup_attr s (attrs n) name
  | None => None
  end.

Definition node_get_depth (s : Silo) (off : nat) : N :=
  match get_node s off with Some n => depth n | None => 0%N end.

(** The offsets reached from [o] by following [next]; the fuel is the
    number of nodes of the blob. *)
Fixpoint sibling_chain (fuel : nat) (s : Silo) (o : option nat) : list nat :=
  match fuel, o with
  | S fuel', Some off => off :: sibling_chain fuel' s (node_get_next s off)
  | _, _ => []
  end.

Definition children_of (s : Silo) (off : nat) : list nat :=
  sibling_chain (length (nodes s)) s (node_get_child s off).

Definition toplevel (s : Silo) : list nat :=
  sibling_chain (length (nodes s)) s (get_sroot s).

(** *** The query evaluator

    Modelled from the spec: [xb_silo_query_with_root] of
    xb-silo-query.c, which is not among the sources (the contract of
    section 4.2 and the grammar of section 6).  An expression is a
    sequence of steps separated by [/]; a leading [/], or no anchor,
    evaluates from the silo root, otherwise evaluation starts at the
    anchor's parent.  Following the grammar, a step is a child-element
    name, optionally with one predicate: positional [n] (1-based among
    the sibling matches), [@attr='literal'] or [text()='literal'] (either
    quote).  Results come in document order, are truncated to [limit]
    (0: no limit), and an empty result is reported as not-found.  The
    spec leaves the meaning of the [name='literal'] predicate open, and
    its grammar has no step for the attribute axis; this model gives
    them no meaning and answers invalid-query, as for any malformed
    step.  The spec does not fix the [GIOErrorEnum] member of
    invalid-query either; the model uses [G_IO_ERROR_INVALID_ARGUMENT]. *)

Inductive predicate :=
  | PNone
  | PPos (n : nat)
  | PAttrEq (name literal : string)
  | PTextEq (literal : string).

Record step := mkStep { step_name : string; step_pred : predicate }.

Fixpoint split_on (c : ascii) (s : string) : list string :=
  match s with
  | EmptyString => [EmptyString]
  | String x rest =>
      match split_on c rest with
      | [] => []
      | hd :: tl =>
          if Ascii.eqb x c then EmptyString :: hd :: tl
          else String x hd :: tl
      end
  end.

Fixpoint all_digits (s : string) : bool :=
  match s with
  | EmptyString => true
  | String c rest => g_ascii_isdigit c && all_digits rest
  end.

Fixpoint digits_to_nat (s : string) (acc : nat) : nat :=
  match s with
  | EmptyString => acc
  | String c rest => digits_to_nat rest (10 * acc + (nat_of_ascii c - 48))%nat
  end.

Fixpoint contains_char (c : ascii) (s : string) : bool :=
  match s with
  | EmptyString => false
  | String x rest => Ascii.eqb x c || contains_char c rest
  end.

Definition last_char (s : string) : option ascii :=
  String.get (String.length s - 1) s.

Definition squote : ascii := ascii_of_nat 39.
Definition dquote : ascii := ascii_of_nat 34.

(** A literal in single or in double quotes, with no further quote of
    the same kind inside. *)
Definition parse_literal (s : string) : option string :=
  match s with
  | String q rest =>
      if Ascii.eqb q squote || Ascii.eqb q dquote then
        match last_char rest with
        | Some q' =>
            let body := String.substring 0 (String.length rest - 1) rest in
            if Ascii.eqb q q' && negb (contains_char q body)
            then Some body else None
        | None => None
        end
      else None
  | EmptyString => None
  end.

Definition parse_predicate (p : string) : option predicate :=
  if negb (String.eqb p EmptyString) && all_digits p then
    match digits_to_nat p 0 with
    | O => None
    | S n => Some (PPos (S n))
    end
  else if String.prefix "text()=" p then
    match parse_literal (str_skip 7 p) with
    | Some l => Some (PTextEq l)
    | None => None
    end
  else
    match p with
    | String "@" rest =>
        match split_on "=" rest with
        | [name; lit] =>
            if String.eqb name EmptyString then None
            else match parse_literal lit with
                 | Some l => Some (PAttrEq name l)
                 | None => None
                 end
        | _ => None
        end
    | _ => None
    end.

Definition valid_name (s : string) : bool :=
  negb (String.eqb s EmptyString) && negb (contains_char "[" s)
  && negb (contains_char "]" s) && negb (contains_char "@" s).

Definition parse_step (s : string) : option step :=
  match split_on "[" s with
  | [name] => if valid_name name then Some (mkStep name PNone) else None
  | [name; rest] =>
      match last_char rest with
      | Some "]"%char =>
          let body := String.substring 0 (String.length rest - 1) rest in
          if valid_name name && negb (contains_char "]" body) then
            match parse_predicate body with
            | Some p => Some (mkStep name p)
            | None => None
            end
          else None
      | _ => None
      end
  | _ => None
  end.

Fixpoint parse_steps (l : list string) : option (list step) :=
  match l with
  | [] => Some []
  | s :: rest =>
      match parse_step s, parse_steps rest with
      | Some st, Some sts => Some (st :: sts)
      | _, _ => None
      end
  end.

(** Returns whether the expression is absolute, and its steps. *)
Definition parse_xpath (xpath : string) : option (bool * list step) :=
  match xpath with
  | String "/" rest =>
      match parse_steps (split_on "/" rest) with
      | Some sts => Some (true, sts)
      | None => None
      end
  | _ =>
      match parse_steps (split_on "/" xpath) with
      | Some sts => Some (false, sts)
      | None => None
      end
  end.

Definition name_matches (s : Silo) (name : string) (off : nat) : bool :=
  match node_get_element s off with
  | Some e => String.eqb e name
  | None => false
  end.

Definition opt_str_eqb (o : option string) (l : string) : bool :=
  match o with Some x => String.eqb x l | None => false end.

(** The nodes of one sibling group selected by a step. *)
Definition select (s : Silo) (st : step) (group : list nat) : list nat :=
  let named := List.filter (name_matches s (step_name st)) group in
  match step_pred st with
  | PNone => named
  | PPos n => match nth_error named (n - 1) with Some x => [x] | None => [] end
  | PAttrEq a l =>
      List.filter (fun off => opt_str_eqb (node_get_attr s off a) l) named
  | PTextEq l =>
      List.filter (fun off => opt_str_eqb (node_get_text s off) l) named
  end.

Fixpoint eval_steps (s : Silo) (sts : list step) (groups : list (list nat))
    : list nat :=
  match sts with
  | [] => []
  | [st] => List.concat (List.map (select s st) groups)
  | st :: rest =>
      let matched := List.concat (List.map (select s st) groups) in
      eval_steps s rest (List.map (children_of s) matched)
  end.

Definition start_group (s : Silo) (n : option PNode) (absolute : bool)
    : list nat :=
  match n with
  | Some a =>
      if absolute then toplevel s
      else match node_get_parent s (sn a) with
           | Some p => children_of s p
           | None => toplevel s
           end
  | None => toplevel s
  end.

Definition truncate (limit : N) (l : list nat) : list nat :=
  if (limit =? 0)%N then l else firstn (N.to_nat limit) l.

Definition query_with_root (s : Silo) (n : option PNode) (xpath : string)
    (limit : N) : GError + list PNode :=
  match parse_xpath xpath with
  | None =>
      inl (mkGError G_IO_ERROR G_IO_ERROR_INVALID_ARGUMENT "invalid query")
  | Some (absolute, sts) =>
      match truncate limit (eval_steps s sts [start_group s n absolute]) with
      | [] => inl (mkGError G_IO_ERROR G_IO_ERROR_NOT_FOUND "no results")
      | offs => inr (List.map (fun off => mkXbNode s off ∅) offs)
      end
  end.

(** Modelled from the spec: the exporter of xb-silo-export.c, which is
    not among the sources and "is not respecified" by the spec.  Only the
    shape of an element is produced: the start tag with its attributes,
    the text, the children, the end tag, with no separator; [flags] are
    not interpreted. *)
Fixpoint export_attrs (s : Silo) (l : list (nat * nat)) : string :=
  match l with
  | [] => EmptyString
  | (k, v) :: rest =>
      " " ++ default EmptyString (from_strtab s k) ++ "=" ++
      String dquote (default EmptyString (from_strtab s v)) ++
      String dquote (export_attrs s rest)
  end.

Fixpoint export_node (fuel : nat) (s : Silo) (off : nat) : string :=
  match fuel with
  | O => EmptyString
  | S fuel' =>
      match get_node s off with
      | None => EmptyString
      | Some n =>
          let name := default EmptyString (from_strtab s (element_name n)) in
          "<" ++ name ++ export_attrs s (attrs n) ++ ">" ++
          default EmptyString (node_get_text s off) ++
          String.concat EmptyString (List.map (export_node fuel' s) (children_of s off)) ++
          "</" ++ name ++ ">"
      end
  end.

Definition export_with_root (s : Silo) (n : option PNode)
    (flags : XbNodeExportFlags) : GError + string :=
  match n with
  | Some a => inr (export_node (S (length (nodes s))) s (sn a))
  | None =>
      match get_sroot s with
      | Some r => inr (export_node (S (length (nodes s))) s r)
      | None => inl (mkGError G_IO_ERROR G_IO_ERROR_NOT_FOUND "no data")
      end
  end.

#[export] Instance packed_silo_api : XbSiloApi Silo nat := {
  xb_silo_get_sroot := get_sroot;
  xb_silo_node_get_parent := node_get_parent;
  xb_silo_node_get_next := node_get_next;
  xb_silo_node_get_child := node_get_child;
  xb_silo_node_get_text := node_get_text;
  xb_silo_node_get_element := node_get_element;
  xb_silo_node_get_attr := node_get_attr;
  xb_silo_node_get_depth := node_get_depth;
  xb_silo_query_with_root := query_with_root;
  xb_silo_export_with_root := export_with_root
}.

End PackedSilo.

(** ** Reference counting around a node view

    The ownership side of xb-node.c: which reference counts
    [xb_node_new], [xb_node_set_data] and the destruction of a node
    touch.  Objects are named by their address; an object is live while
    it is in its table, with its [ref_count]; the last [unref] removes
    it. *)

Module Lifetime.

Record NodeObj := mkNodeObj {
  ref_count : nat;
  n_silo : nat;                 (* [n->silo]: an address *)
  n_sn : nat;                   (* [n->sn] *)
  datalist : gmap string nat    (* keyed data; every entry carries the
                                   destroy notify [g_bytes_unref] *)
}.

Record World := mkWorld {
  silos : gmap nat nat;         (* live [XbSilo] instances and their counts *)
  buffers : gmap nat nat;       (* live [GBytes] and their counts *)
  nodes : gmap nat NodeObj      (* live [XbNode] instances *)
}.

Definition ref (m : gmap nat nat) (a : nat) : gmap nat nat :=
  match m !! a with
  | Some r => <[a := S r]> m
  | None => m
  end.

Definition unref (m : gmap nat nat) (a : nat) : gmap nat nat :=
  match m !! a with
  | Some (S (S r)) => <[a := S r]> m
  | Some _ => delete a m
  | None => m
  end.

(** The reference count of the object at [a]; 0 once it is released. *)
Definition count_of (m : gmap nat nat) (a : nat) : nat := default O (m !! a).

(** [g_object_ref] and [g_object_unref] on a silo. *)
Definition silo_ref (w : World) (s : nat) : World :=
  mkWorld (ref (silos w) s) (buffers w) (nodes w).
Definition silo_unref (w : World) (s : nat) : World :=
  mkWorld (unref (silos w) s) (buffers w) (nodes w).

Definition g_bytes_ref (w : World) (b : nat) : World :=
  mkWorld (silos w) (ref (buffers w) b) (nodes w).
Definition g_bytes_unref (w : World) (b : nat) : World :=
  mkWorld (silos w) (unref (buffers w) b) (nodes w).

(** [xb_node_new]: [g_object_new] gives an instance with one reference at
    a free address; the two fields are plain stores. *)
Definition xb_node_new (w : World) (s : nat) (n : nat) : nat * World :=
  let self := fresh (dom (nodes w)) in
  (self, mkWorld (silos w) (buffers w)
           (<[self := mkNodeObj 1 s n ∅]> (nodes w))).

(** [xb_node_set_data]: [g_bytes_ref (data)] is evaluated first, then
    [g_object_set_data_full] stores the entry and runs the destroy notify
    of the entry it replaces. *)
Definition xb_node_set_data (w : World) (self : option nat)
    (key : option string) (data : option nat) : World :=
  match self with
  | None => w
  | Some a =>
      match nodes w !! a with
      | None => w
      | Some n =>
          match key with
          | None => w
          | Some k =>
              match data with
              | None => w
              | Some b =>
                  let w1 := g_bytes_ref w b in
                  let n' := mkNodeObj (ref_count n) (n_silo n) (n_sn n)
                              (<[k := b]> (datalist n)) in
                  let w2 := mkWorld (silos w1) (buffers w1)
                              (<[a := n']> (nodes w1)) in
                  match datalist n !! k with
                  | Some old => g_bytes_unref w2 old
                  | None => w2
                  end
              end
          end
      end
  end.

Definition xb_node_get_data (w : World) (self : option nat)
    (key : option string) : option nat :=
  match self with
  | None => None
  | Some a =>
      match nodes w !! a, key with
      | Some n, Some k => datalist n !! k
      | _, _ => None
      end
  end.

(** The buffers held by a keyed-data list, one per entry. *)
Definition held (d : gmap string nat) : list nat := (map_to_list d).*2.

Definition unref_all (m : gmap nat nat) (l : list nat) : gmap nat nat :=
  foldr (fun b acc => unref acc b) m l.

(** [g_object_unref] on a node.  The last reference destroys it:
    [xb_node_finalize] only chains up, and [GObject] clears the keyed
    data, running every destroy notify. *)
Definition node_unref (w : World) (a : nat) : World :=
  match nodes w !! a with
  | None => w
  | Some n =>
      match ref_count n with
      | S (S r) =>
          mkWorld (silos w) (buffers w)
            (<[a := mkNodeObj (S r) (n_silo n) (n_sn n) (datalist n)]> (nodes w))
      | _ =>
          mkWorld (silos w) (unref_all (buffers w) (held (datalist n)))
            (delete a (nodes w))
      end
  end.

(** A world with one silo, at address 0, held by its caller alone. *)
Definition world_with_silo : World := mkWorld {[ 0%nat := 1%nat ]} ∅ ∅.

(** The same with a view at address 0 whose entry [k] holds the buffer 5,
    and two buffers: 5, held by the view and by a caller, and 6, held by
    a caller. *)
Definition world_with_view : World :=
  mkWorld {[ 0%nat := 1%nat ]} {[ 5%nat := 2%nat; 6%nat := 1%nat ]}
    {[ 0%nat := mkNodeObj 1 0 7 {[ "k" := 5%nat ]} ]}.

End Lifetime.

(** ** xb-tool.c *)

Module XbTool.

Definition EXIT_SUCCESS : Z := 0.
Definition EXIT_FAILURE : Z := 1.

Inductive XbSiloLoadFlag := XB_SILO_LOAD_FLAG_NO_MAGIC.
Definition XbSiloLoadFlags := list XbSiloLoadFlag.
Definition XB_SILO_LOAD_FLAG_NONE : XbSiloLoadFlags := [].

Inductive XbBuilderCompileFlag :=
  | XB_BUILDER_COMPILE_FLAG_LITERAL_TEXT
  | XB_BUILDER_COMPILE_FLAG_NATIVE_LANGS.

(** What a command returns: the lines it printed, and [TRUE] or [FALSE]
    with the error it set. *)
Definition outcome : Type := list string * (GError + unit).

(** [g_print]: one more piece of text on the standard output. *)
Definition g_print (printed : list string) (s : string) : list string :=
  app printed [s].

Section Tool.

Context {XbSilo XbSiloNode : Type} `{!XbSiloApi XbSilo XbSiloNode}.

(** The library calls of [main] and of the four commands, none of which
    is part of the sources at hand.  [g_option_context_parse] gives the
    values of [verbose] and [force] and the remaining [argv]. *)
Record Library := mkLibrary {
  g_option_context_parse : list string -> GError + (bool * bool * list string);
  g_option_context_get_help : string -> string;
  xb_silo_load_from_file : string -> XbSiloLoadFlags -> GError + XbSilo;
  xb_silo_to_string : XbSilo -> GError + string;
  xb_silo_export : XbSilo -> XbNodeExportFlags -> GError + string;
  xb_silo_query_first : XbSilo -> string -> GError + XbNode XbSilo XbSiloNode;
  XbBuilder : Type;
  xb_builder_new : XbBuilder;
  xb_builder_import_file : XbBuilder -> string -> GError + XbBuilder;
  xb_builder_ensure :
    XbBuilder -> string -> list XbBuilderCompileFlag -> GError + XbSilo
}.

Variable lib : Library.

Record XbToolPrivate := mkPriv { force : bool }.

Record FuUtilItem := mkItem {
  name : string;
  arguments : option string;
  description : string;
  callback : XbToolPrivate -> list string -> outcome
}.

Definition xb_tool_sort_command_name_cb (item1 item2 : FuUtilItem) : comparison :=
  String.compare (name item1) (name item2).

(** [g_strsplit (name, ",", -1)]: the empty string has no token. *)
Definition g_strsplit_comma (s : string) : list string :=
  match s with
  | EmptyString => []
  | _ => PackedSilo.split_on "," s
  end.

Fixpoint add_names (names : list string) (first : string) (i : nat)
    (args : option string) (descr : string)
    (cb : XbToolPrivate -> list string -> outcome) : list FuUtilItem :=
  match names with
  | [] => []
  | n :: rest =>
      mkItem n args
        (match i with O => descr | S _ => "Alias to " ++ first end) cb
      :: add_names rest first (S i) args descr cb
  end.

Definition xb_tool_add (array : list FuUtilItem) (nm : string)
    (args : option string) (descr : string)
    (cb : XbToolPrivate -> list string -> outcome) : list FuUtilItem :=
  let names := g_strsplit_comma nm in
  (array ++ add_names names (hd EmptyString names) 0 args descr cb)%list.

Fixpoint spaces (n : nat) : string :=
  match n with
  | O => EmptyString
  | S n' => String " " (spaces n')
  end.

Definition describe_item (item : FuUtilItem) : string :=
  let max_len := 31%nat in
  let len := (String.length (name item) + 2)%nat in
  let '(args, len) :=
    match arguments item with
    | Some a => (" " ++ a, (len + String.length a + 1)%nat)
    | None => (EmptyString, len)
    end in
  "  " ++ name item ++ args ++
  (if (len <? max_len)%nat
   then spaces (max_len + 1 - len) ++ description item ++ String "010" EmptyString
   else String "010" (spaces (max_len + 1)) ++ description item
        ++ String "010" EmptyString).

Definition xb_tool_get_descriptions (array : list FuUtilItem) : string :=
  let str := String.concat EmptyString (List.map describe_item array) in
  String.substring 0 (String.length str - 1) str.

(** [xb_tool_run]: the first item whose name is [command]. *)
Fixpoint xb_tool_run_items (items : list FuUtilItem) (priv : XbToolPrivate)
    (command : option string) (values : list string) : outcome :=
  match items with
  | [] => ([], inl (mkGError G_IO_ERROR G_IO_ERROR_FAILED "Command not found"))
  | item :: rest =>
      if g_strcmp0_eq (Some (name item)) command
      then callback item priv values
      else xb_tool_run_items rest priv command values
  end.

Definition load_flags (priv : XbToolPrivate) : XbSiloLoadFlags :=
  if force priv then [XB_SILO_LOAD_FLAG_NO_MAGIC] else XB_SILO_LOAD_FLAG_NONE.

(** The [for (i = 0; values[i] != NULL; i++)] loop of [xb_tool_dump]: one
    round per value, each of them opening [values[0]]. *)
Fixpoint dump_loop (rounds : list string) (first : string)
    (flags : XbSiloLoadFlags) (printed : list string) : outcome :=
  match rounds with
  | [] => (printed, inr tt)
  | _ :: rest =>
      match xb_silo_load_from_file lib first flags with
      | inl e => (printed, inl e)
      | inr silo =>
          match xb_silo_to_string lib silo with
          | inl e => (printed, inl e)
          | inr str => dump_loop rest first flags (g_print printed str)
          end
      end
  end.

Definition xb_tool_dump (priv : XbToolPrivate) (values : list string) : outcome :=
  match values with
  | [] =>
      ([], inl (mkGError G_IO_ERROR G_IO_ERROR_FAILED
                  "Invalid arguments, expected FILENAME -- e.g. `example.xmlb`"))
  | first :: _ => dump_loop values first (load_flags priv) []
  end.

Fixpoint export_loop (rounds : list string) (first : string)
    (flags : XbSiloLoadFlags) (printed : list string) : outcome :=
  match rounds with
  | [] => (printed, inr tt)
  | _ :: rest =>
      match xb_silo_load_from_file lib first flags with
      | inl e => (printed, inl e)
      | inr silo =>
          match xb_silo_export lib silo
                  [XB_NODE_EXPORT_FLAG_ADD_HEADER;
                   XB_NODE_EXPORT_FLAG_FORMAT_MULTILINE;
                   XB_NODE_EXPORT_FLAG_FORMAT_INDENT;
                   XB_NODE_EXPORT_FLAG_INCLUDE_SIBLINGS] with
          | inl e => (printed, inl e)
          | inr str => export_loop rest first flags (g_print printed str)
          end
      end
  end.

Definition xb_tool_export (priv : XbToolPrivate) (values : list string) : outcome :=
  match values with
  | [] =>
      ([], inl (mkGError G_IO_ERROR G_IO_ERROR_FAILED
                  "Invalid arguments, expected FILENAME -- e.g. `example.xmlb`"))
  | first :: _ => export_loop values first (load_flags priv) []
  end.

Definition xb_tool_query (priv : XbToolPrivate) (values : list string) : outcome :=
  match values with
  | [filename; query] =>
      match xb_silo_load_from_file lib filename XB_SILO_LOAD_FLAG_NONE with
      | inl e => ([], inl e)
      | inr silo =>
          match xb_silo_query_first lib silo query with
          | inl e => ([], inl e)
          | inr n =>
              (g_print [] ("RESULT: "
                           ++ default "(null)" (xb_node_get_text (Some n))
                           ++ String "010" EmptyString), inr tt)
          end
      end
  | _ =>
      ([], inl (mkGError G_IO_ERROR G_IO_ERROR_FAILED
                  "Invalid arguments, expected FILENAME QUERY -- e.g. `example.xmlb`"))
  end.

Fixpoint import_loop (files : list string) (builder : XbBuilder lib)
    : GError + XbBuilder lib :=
  match files with
  | [] => inr builder
  | f :: rest =>
      match xb_builder_import_file lib builder f with
      | inl e => inl e
      | inr builder' => import_loop rest builder'
      end
  end.

Definition xb_tool_compile (priv : XbToolPrivate) (values : list string) : outcome :=
  match values with
  | dst :: ((_ :: _) as inputs) =>
      match import_loop inputs (xb_builder_new lib) with
      | inl e => ([], inl e)
      | inr builder =>
          match xb_builder_ensure lib builder dst
                  [XB_BUILDER_COMPILE_FLAG_LITERAL_TEXT;
                   XB_BUILDER_COMPILE_FLAG_NATIVE_LANGS] with
          | inl e => ([], inl e)
          | inr _ => ([], inr tt)
          end
      end
  | _ =>
      ([], inl (mkGError G_IO_ERROR G_IO_ERROR_FAILED
                  "Invalid arguments, expected FILE-IN FILE-OUT -- e.g. `example.xml example.xmlb`"))
  end.

(** [g_ptr_array_sort] with [xb_tool_sort_command_name_cb]. *)
Fixpoint insert_item (x : FuUtilItem) (l : list FuUtilItem) : list FuUtilItem :=
  match l with
  | [] => [x]
  | y :: rest =>
      match xb_tool_sort_command_name_cb x y with
      | Gt => y :: insert_item x rest
      | _ => x :: l
      end
  end.

Definition g_ptr_array_sort (l : list FuUtilItem) : list FuUtilItem :=
  foldr insert_item [] l.

Definition cmd_array : list FuUtilItem :=
  let a := [] in
  let a := xb_tool_add a "dump" (Some "FILENAME") "Dumps a XMLb file" xb_tool_dump in
  let a := xb_tool_add a "export" (Some "FILENAME") "Exports a XMLb file" xb_tool_export in
  let a := xb_tool_add a "query" (Some "FILENAME") "Queries a XMLb file" xb_tool_query in
  let a := xb_tool_add a "compile" (Some "FILENAME-FROM FILENAME-TO")
             "Compile XML to XMLb" xb_tool_compile in
  g_ptr_array_sort a.

Definition xb_tool_run (priv : XbToolPrivate) (command : option string)
    (values : list string) : outcome :=
  xb_tool_run_items cmd_array priv command values.

(** The text [g_option_context_get_help] produces for the context of
    [main], whose summary is the list of commands. *)
Definition help_text : string :=
  g_option_context_get_help lib (xb_tool_get_descriptions cmd_array).

Definition newline : string := String "010" EmptyString.

(** [main]: the exit status and what was printed.  [--help] is answered
    inside [g_option_context_parse], which then leaves the process
    itself; [main] goes on only with the other two results.  [verbose]
    only sets [G_MESSAGES_DEBUG] in the environment, which is not
    tracked. *)
Definition main (argv : list string) : Z * list string :=
  match g_option_context_parse lib argv with
  | inl error =>
      (EXIT_FAILURE,
       g_print [] ("Failed to parse arguments: " ++ message error ++ newline))
  | inr (verbose, force_, argv') =>
      let priv := mkPriv force_ in
      match xb_tool_run priv (nth_error argv' 1) (skipn 2 argv') with
      | (printed, inl error) =>
          if g_error_matches (Some error) G_IO_ERROR G_IO_ERROR_FAILED
          then (EXIT_FAILURE,
                g_print printed (message error ++ newline ++ newline ++ help_text))
          else (EXIT_FAILURE, g_print printed (message error ++ newline))
      | (printed, inr _) => (EXIT_SUCCESS, printed)
      end
  end.

(** The error [main] fails with, when it fails. *)
Definition main_error (argv : list string) : option GError :=
  match g_option_context_parse lib argv with
  | inl error => Some error
  | inr (verbose, force_, argv') =>
      match xb_tool_run (mkPriv force_) (nth_error argv' 1) (skipn 2 argv') with
      | (_, inl error) => Some error
      | (_, inr _) => None
      end
  end.

(** The errors of the argument checks of the commands all start with the
    same words. *)
Definition invalid_arguments_error (e : GError) : bool :=
  String.prefix "Invalid arguments" (message e).

(** The last thing printed is the message of [e] followed by the help. *)
Definition ends_with_help (printed : list string) (e : GError) : Prop :=
  last printed = Some (message e ++ newline ++ newline ++ help_text).

(** The exit contract in the words of the specification: 0 on success, 1
    on failure, and the help exactly when the failure is one of the
    errors [P]. *)
Definition help_exactly_when (P : GError -> Prop) (argv : list string) : Prop :=
  match main_error argv with
  | None => (main argv).1 = EXIT_SUCCESS
  | Some e =>
      (main argv).1 = EXIT_FAILURE
      /\ (ends_with_help (main argv).2 e <-> P e)
  end.

(** The same with the invalid-arguments errors for [P]. *)
Definition help_exactly_on_invalid_arguments (argv : list string) : Prop :=
  help_exactly_when (fun e => invalid_arguments_error e = true) argv.

End Tool.

End XbTool.

(** ** Silos and a library for the examples *)

Module Scenarios.

Import PackedSilo.

(** The silo of [<a><b>TEXT</b></a>]: [a] at offset 0, [b] at offset 1. *)
Definition silo_a_b (txt : string) : Silo :=
  mkSilo ["a"; "b"; txt]
    [ mkSiloNode 0 None [] None None (Some 1%nat) 0;
      mkSiloNode 1 (Some 2%nat) [] (Some 0%nat) None None 1 ]
    (Some 0%nat).

(** The silo of [<a><b/><b/><b/></a>]. *)
Definition silo_a_bbb : Silo :=
  mkSilo ["a"; "b"]
    [ mkSiloNode 0 None [] None None (Some 1%nat) 0;
      mkSiloNode 1 None [] (Some 0%nat) (Some 2%nat) None 1;
      mkSiloNode 1 None [] (Some 0%nat) (Some 3%nat) None 1;
      mkSiloNode 1 None [] (Some 0%nat) None None 1 ]
    (Some 0%nat).

(** The silo of [<a><b type="x">1</b><b type="y">2</b></a>]. *)
Definition silo_typed : Silo :=
  mkSilo ["a"; "b"; "type"; "x"; "1"; "y"; "2"]
    [ mkSiloNode 0 None [] None None (Some 1%nat) 0;
      mkSiloNode 1 (Some 4%nat) [(2%nat, 3%nat)] (Some 0%nat) (Some 2%nat) None 1;
      mkSiloNode 1 (Some 6%nat) [(2%nat, 5%nat)] (Some 0%nat) None None 1 ]
    (Some 0%nat).

(** The root view of a silo whose root is at offset 0. *)
Definition root_view (s : Silo) : PNode := xb_node_new s 0%nat.

(** A stand-in for the libraries behind xb-tool: options are [-v],
    [--verbose] and [--force], any other word that starts with a dash is
    an unknown option; the only file is [nope.xmlb], holding
    [<a><b>nope</b></a>]. *)
Definition is_option (s : string) : bool := String.prefix "-" s.

Definition known_option (s : string) : bool :=
  String.eqb s "-v" || String.eqb s "--verbose" || String.eqb s "--force".

Definition demo_parse (argv : list string)
    : GError + (bool * bool * list string) :=
  match List.find (fun a => is_option a && negb (known_option a)) argv with
  | Some bad => inl (mkGError G_OPTION_ERROR 0 ("Unknown option " ++ bad))
  | None =>
      inr (existsb (fun a => String.eqb a "-v" || String.eqb a "--verbose") argv,
           existsb (String.eqb "--force") argv,
           List.filter (fun a => negb (is_option a)) argv)
  end.

Definition demo_load (path : string) (flags : XbTool.XbSiloLoadFlags)
    : GError + Silo :=
  if String.eqb path "nope.xmlb" then inr (silo_a_b "nope")
  else inl (mkGError G_IO_ERROR G_IO_ERROR_NOT_FOUND "No such file").

Definition demo_query_first (s : Silo) (xpath : string) : GError + PNode :=
  match query_with_root s None xpath 1 with
  | inl e => inl e
  | inr [] => inl (mkGError G_IO_ERROR G_IO_ERROR_NOT_FOUND "no results")
  | inr (n :: _) => inr n
  end.

Definition demo_library : XbTool.Library :=
  XbTool.mkLibrary
    demo_parse
    (fun summary => "Usage: xb-tool [OPTION] " ++ summary)
    demo_load
    (fun s => export_with_root s None [])
    (fun s flags => export_with_root s None flags)
    demo_query_first
    (list string)
    []
    (fun b f => inr (b ++ [f])%list)
    (fun b dst flags => inr (silo_a_b "nope")).

End Scenarios.

(** ** Numerals

    The text of a number, to state what the parser reads: digits are
    given by their values, most significant first; values from 10 on are
    written with the lower-case letters. *)

Module Numerals.

Definition digit_char (d : Z) : ascii :=
  ascii_of_nat (Z.to_nat (if d <? 10 then 48 + d else 87 + d)).

Fixpoint digits_string (ds : list Z) : string :=
  match ds with
  | [] => EmptyString
  | d :: rest => String (digit_char d) (digits_string rest)
  end.

(** The number the digits [ds] denote after the digits that gave [acc]. *)
Definition digits_from (base acc : Z) (ds : list Z) : Z :=
  fold_left (fun a d => a * base + d) ds acc.

Definition digits_value (base : Z) (ds : list Z) : Z := digits_from base 0 ds.

Definition digits_below (base : Z) (ds : list Z) : Prop :=
  Forall (fun d => 0 <= d < base) ds.

(** The other way round, for a text as it is found: every character of
    [s] is a digit below [base], the letters of either case counting
    from 10. *)
Fixpoint digits_text (base : Z) (s : string) : bool :=
  match s with
  | EmptyString => true
  | String c rest =>
      match digit_value c with
      | Some d => (d <? base) && digits_text base rest
      | None => false
      end
  end.

(** The values of the characters of such a text. *)
Fixpoint text_digits (s : string) : list Z :=
  match s with
  | EmptyString => []
  | String c rest => default 0 (digit_value c) :: text_digits rest
  end.

End Numerals.

(** ** Further silos, worlds and libraries for the examples *)

Module MoreScenarios.

Import PackedSilo.

(** A blob whose node 1 names itself as its next sibling. *)
Definition silo_cyclic : Silo :=
  mkSilo ["a"; "b"]
    [ mkSiloNode 0 None [] None None (Some 1%nat) 0;
      mkSiloNode 1 None [] (Some 0%nat) (Some 1%nat) None 1 ]
    (Some 0%nat).

(** [xb_node_set_data] called once per pair, in order. *)
Definition set_data_all (w : Lifetime.World) (self : nat)
    (ops : list (string * nat)) : Lifetime.World :=
  fold_left
    (fun w' kb => Lifetime.xb_node_set_data w' (Some self) (Some kb.1) (Some kb.2))
    ops w.

(** The library of [Scenarios], except that importing [bad.xml] fails. *)
Definition strict_library : XbTool.Library :=
  XbTool.mkLibrary
    Scenarios.demo_parse
    (fun summary => "Usage: xb-tool [OPTION] " ++ summary)
    Scenarios.demo_load
    (fun s => export_with_root s None [])
    (fun s flags => export_with_root s None flags)
    Scenarios.demo_query_first
    (list string)
    []
    (fun b f =>
       if String.eqb f "bad.xml"
       then inl (mkGError G_IO_ERROR G_IO_ERROR_NOT_FOUND "No such file")
       else inr (b ++ [f])%list)
    (fun b dst flags => inr (Scenarios.silo_a_b "nope")).

End MoreScenarios.

(** * Properties of the parser

    [g_ascii_strtoull] stays within [guint64]. *)

Lemma digit_value_nonneg (c : ascii) (d : Z) :
  digit_value c = Some d -> 0 <= d.
Proof.
  unfold digit_value, g_ascii_isdigit, ISALPHA, ISUPPER, ISLOWER, TOUPPER,
    ISLOWER.
  generalize (chr c); intros n.
  destruct (Z.leb_spec 48 n), (Z.leb_spec n 57), (Z.leb_spec 65 n),
    (Z.leb_spec n 90), (Z.leb_spec 97 n), (Z.leb_spec n 122);
    simpl; intros Hd; inversion Hd; lia.
Qed.




(** * Properties of the node view *)

Section NodeTheory.

Context {XbSilo XbSiloNode : Type} `{!XbSiloApi XbSilo XbSiloNode}.

Local Abbreviation Node := (XbNode XbSilo XbSiloNode).

Lemma g_propagate_empty (e : GError) : g_propagate None e = Some e.
Proof. destruct e; reflexivity. Qed.

Lemma returned_empty_slot {A : Type} (r : GError + A) :
  returned r None = match r with inl e => (None, Some e) | inr a => (Some a, None) end.
Proof.
  destruct r as [e | a]; unfold returned;
    [now rewrite g_propagate_empty | reflexivity].
Qed.

Lemma g_strjoin_two (sep a b : string) :
  g_strjoin sep [Some a; Some b] = a ++ sep ++ b.
Proof. reflexivity. Qed.

Lemma get_next_of_view (s : XbSilo) (x : XbSiloNode) :
  xb_node_get_next (Some (mkXbNode s x ∅)) = view_of s (xb_silo_node_get_next s x).
Proof. unfold xb_node_get_next; simpl. now destruct (xb_silo_node_get_next s x). Qed.

Lemma get_child_of_node (n : Node) :
  xb_node_get_child (Some n)
  = view_of (silo n) (xb_silo_node_get_child (silo n) (sn n)).
Proof.
  unfold xb_node_get_child.
  now destruct (xb_silo_node_get_child (silo n) (sn n)).
Qed.

Lemma follows_next_of_chain (s : XbSilo) (o : option XbSiloNode)
    (l : list XbSiloNode) :
  sibling_chain_from s o l ->
  follows_next (view_of s o) (List.map (xb_silo_node_create s) l).
Proof.
  induction 1 as [| x l _ IH]; cbn [List.map view_of].
  - constructor.
  - change (Some (mkXbNode s x ∅)) with (Some (xb_silo_node_create s x)).
    constructor.
    change (xb_silo_node_create s x) with (mkXbNode s x ∅).
    now rewrite get_next_of_view.
Qed.

Lemma children_loop_follows (o : option Node) (l : list Node) :
  follows_next o l ->
  forall (fuel : nat) (acc : list Node),
    (length l <= fuel)%nat ->
    children_loop fuel o acc = Finished (acc ++ l)%list.
Proof.
  induction 1 as [| x l _ IH]; intros fuel acc Hfuel.
  - destruct fuel; simpl; now rewrite app_nil_r.
  - destruct fuel as [| fuel]; simpl in *; [lia |].
    rewrite IH by lia. now rewrite <- app_assoc.
Qed.

Lemma sibling_chain_exists (s : XbSilo) (rank : XbSiloNode -> nat) :
  (forall x y, xb_silo_node_get_next s x = Some y -> (rank y < rank x)%nat) ->
  forall (k : nat) (o : option XbSiloNode),
    (forall x, o = Some x -> (rank x < k)%nat) ->
    exists l, sibling_chain_from s o l.
Proof.
  intros Hrank k. induction k as [| k IH]; intros [x |] Hk.
  - specialize (Hk x eq_refl). lia.
  - exists []. constructor.
  - destruct (IH (xb_silo_node_get_next s x)) as [l Hl].
    + intros y Hy. specialize (Hrank x y Hy). specialize (Hk x eq_refl). lia.
    + exists (x :: l). now constructor.
  - exists []. constructor.
Qed.

(** C5: [parent], [next], [child] and [root] have no error to report;
    each of them answers with nothing exactly when the silo primitive
    answers with nothing, and otherwise with a new view, without keyed
    data, of the very node the primitive gave, in the silo of [n]. *)
Theorem traversal_wraps_primitive (n : Node) :
  xb_node_get_parent (Some n)
    = view_of (silo n) (xb_silo_node_get_parent (silo n) (sn n))
  /\ xb_node_get_next (Some n)
    = view_of (silo n) (xb_silo_node_get_next (silo n) (sn n))
  /\ xb_node_get_child (Some n)
    = view_of (silo n) (xb_silo_node_get_child (silo n) (sn n))
  /\ xb_node_get_root (Some n)
    = view_of (silo n) (xb_silo_get_sroot (silo n))
  /\ (forall prim : option XbSiloNode,
        (view_of (silo n) prim = None <-> prim = None)
        /\ (forall v, view_of (silo n) prim = Some v ->
              silo v = silo n /\ prim = Some (sn v) /\ qdata v = ∅)).
Proof.
  unfold xb_node_get_parent, xb_node_get_next, xb_node_get_root.
  split; [now destruct (xb_silo_node_get_parent (silo n) (sn n)) |].
  split; [now destruct (xb_silo_node_get_next (silo n) (sn n)) |].
  split; [apply get_child_of_node |].
  split; [now destruct (xb_silo_get_sroot (silo n)) |].
  intros [x |]; simpl; split.
  - split; discriminate.
  - intros v Hv. inversion Hv; subst v. simpl. auto.
  - split; reflexivity.
  - intros v Hv. discriminate.
Qed.

(** C6: when the sibling links of the silo are acyclic ([rank] goes down
    along [next]), going to [child] and then following [next] ends after
    finitely many views [l]; with at least that much fuel
    [xb_node_get_children] finishes and returns exactly [l], whose silo
    nodes are the sibling chain of the silo in link order. *)
Theorem children_enumerates_siblings (n : Node) (rank : XbSiloNode -> nat)
    (Hrank : forall x y, xb_silo_node_get_next (silo n) x = Some y ->
                         (rank y < rank x)%nat) :
  exists l : list Node,
    follows_next (xb_node_get_child (Some n)) l
    /\ (forall fuel, (length l <= fuel)%nat ->
          xb_node_get_children fuel (Some n) = Finished l)
    /\ sibling_chain_from (silo n)
         (xb_silo_node_get_child (silo n) (sn n)) (List.map sn l)
    /\ Forall (fun v => silo v = silo n) l.
Proof.
  destruct (sibling_chain_exists (silo n) rank Hrank
              (S (match xb_silo_node_get_child (silo n) (sn n) with
                  | Some x => rank x | None => O end))
              (xb_silo_node_get_child (silo n) (sn n))) as [c Hc].
  { intros x ->. lia. }
  exists (List.map (xb_silo_node_create (silo n)) c).
  assert (Hf : follows_next (xb_node_get_child (Some n))
                 (List.map (xb_silo_node_create (silo n)) c)).
  { rewrite get_child_of_node. now apply follows_next_of_chain. }
  repeat split.
  - exact Hf.
  - intros fuel Hfuel. unfold xb_node_get_children.
    now rewrite (children_loop_follows _ _ Hf fuel [] Hfuel).
  - rewrite List.map_map. simpl. now rewrite List.map_id.
  - apply Forall_forall. intros v Hv. apply list_elem_of_In in Hv.
    apply List.in_map_iff in Hv. destruct Hv as (x & <- & _). reflexivity.
Qed.

(** C2: for a view whose element name is [e], [xb_node_query] and
    [xb_node_query_first] call the silo evaluator with [e], a [/] and
    the caller's expression; the text, export and integer helpers go
    through [xb_node_query_first] with the caller's expression as it
    is. *)
Theorem query_prefixes_element (self : Node) (xpath e : string) (limit : N)
    (error : GErrorSlot)
    (He : xb_node_get_element (Some self) = Some e) :
  xpath_with_element self xpath = e ++ "/" ++ xpath
  /\ xb_node_query (Some self) (Some xpath) limit error
     = returned (xb_silo_query_with_root (silo self) (Some self)
                   (e ++ "/" ++ xpath) limit) error
  /\ xb_node_query_first (Some self) (Some xpath) error
     = first_match
         (returned (xb_silo_query_with_root (silo self) (Some self)
                      (e ++ "/" ++ xpath) 1) error)
  /\ xb_node_query_text (Some self) (Some xpath) error
     = (let! r := xb_node_query_first (Some self) (Some xpath) error in
        Defined (text_of_match r))
  /\ xb_node_query_export (Some self) (Some xpath) error
     = (let! r := xb_node_query_first (Some self) (Some xpath) error in
        Defined (export_of_match r))
  /\ xb_node_query_text_as_uint (Some self) (Some xpath) error
     = (let! r := xb_node_query_first (Some self) (Some xpath) error in
        Defined (uint_of_match r)).
Proof.
  assert (Hx : xpath_with_element self xpath = e ++ "/" ++ xpath).
  { unfold xpath_with_element. rewrite He. apply g_strjoin_two. }
  repeat split; try assumption.
  - unfold xb_node_query. now rewrite Hx.
  - unfold xb_node_query_first. now rewrite Hx.
Qed.

(** A view without an element name: [g_strjoin] stops at the [NULL] and
    the evaluator is handed the empty string. *)
Lemma query_without_element (self : Node) (xpath : string) :
  xb_node_get_element (Some self) = None ->
  xpath_with_element self xpath = EmptyString.
Proof. intros He. unfold xpath_with_element. now rewrite He. Qed.

(** C3: [xb_node_query_first] is [xb_node_query] with limit 1 followed by
    the read of element 0: the same failure with the same error when the
    query fails, and the first element of the result otherwise. *)
Theorem query_first_is_query_limit_one (self : option Node)
    (xpath : option string) (error : GErrorSlot) :
  xb_node_query_first self xpath error
    = first_match (xb_node_query self xpath 1 error)
  /\ match xb_node_query self xpath 1 error with
     | (None, error') =>
         xb_node_query_first self xpath error = Defined (None, error')
     | (Some (n :: _), error') =>
         xb_node_query_first self xpath error = Defined (Some n, error')
     | (Some [], _) =>
         xb_node_query_first self xpath error = Undefined
     end.
Proof.
  assert (Heq : xb_node_query_first self xpath error
                = first_match (xb_node_query self xpath 1 error)).
  { unfold xb_node_query_first, xb_node_query.
    destruct self as [n |]; [| reflexivity].
    destruct xpath as [xp |]; reflexivity. }
  split; [exact Heq |].
  rewrite Heq.
  destruct (xb_node_query self xpath 1 error) as [[[| n l] |] error'];
    reflexivity.
Qed.

Lemma query_first_cases (self : Node) (xpath : string) :
  xb_node_query_first (Some self) (Some xpath) None
  = match xb_silo_query_with_root (silo self) (Some self)
            (xpath_with_element self xpath) 1 with
    | inl e => Defined (None, Some e)
    | inr [] => Undefined
    | inr (n :: _) => Defined (Some n, None)
    end.
Proof.
  unfold xb_node_query_first, xb_node_get_silo.
  rewrite returned_empty_slot.
  destruct (xb_silo_query_with_root (silo self) (Some self)
              (xpath_with_element self xpath) 1) as [e | [| n l]];
    reflexivity.
Qed.

(** The read of element 0 is not guarded: an array that is there but
    empty sends [xb_node_query_first] outside the array. *)
Lemma query_first_empty_array (self : Node) (xpath : string) :
  xb_silo_query_with_root (silo self) (Some self)
    (xpath_with_element self xpath) 1 = inr [] ->
  xb_node_query_first (Some self) (Some xpath) None = Undefined.
Proof. intros Hq. rewrite query_first_cases, Hq. reflexivity. Qed.

(** C10: provided the evaluator never answers a limit-1 query with an
    array that is there but empty, the read of element 0 in
    [xb_node_query_first] is inside the array and gives the node
    returned; when the evaluator fails with [e], [xb_node_query_first]
    returns nothing and the caller's error is [e] itself. *)
Theorem query_first_index_in_bounds (self : Node) (xpath : string)
    (Hnonempty : forall l,
       xb_silo_query_with_root (silo self) (Some self)
         (xpath_with_element self xpath) 1 = inr l -> l <> []) :
  xb_node_query_first (Some self) (Some xpath) None <> Undefined
  /\ match xb_silo_query_with_root (silo self) (Some self)
             (xpath_with_element self xpath) 1 with
     | inr l =>
         exists n, g_ptr_array_index l 0 = Defined n
           /\ xb_node_query_first (Some self) (Some xpath) None
              = Defined (Some n, None)
     | inl e =>
         xb_node_query_first (Some self) (Some xpath) None
         = Defined (None, Some e)
     end.
Proof.
  rewrite query_first_cases.
  destruct (xb_silo_query_with_root (silo self) (Some self)
              (xpath_with_element self xpath) 1) as [e | [| n l]] eqn:Hq.
  - split; [discriminate | reflexivity].
  - now destruct (Hnonempty [] eq_refl).
  - split; [discriminate |]. exists n. split; reflexivity.
Qed.

(** C4: [xb_node_query_text] gives the text of the first match; it gives
    nothing with the evaluator's own error when the query fails, and
    nothing with a not-found error when the first match has no text.  So
    it reports not-found in exactly two cases: the evaluator reported
    not-found, or the matched node has no text. *)
Theorem query_text_not_found_cases (self : Node) (xpath : string) :
  match xb_silo_query_with_root (silo self) (Some self)
          (xpath_with_element self xpath) 1 with
  | inl e =>
      xb_node_query_text (Some self) (Some xpath) None
      = Defined (None, Some e)
  | inr [] =>
      xb_node_query_text (Some self) (Some xpath) None = Undefined
  | inr (n :: _) =>
      match xb_node_get_text (Some n) with
      | Some t =>
          xb_node_query_text (Some self) (Some xpath) None
          = Defined (Some t, None)
      | None =>
          xb_node_query_text (Some self) (Some xpath) None
          = Defined (None,
                     Some (mkGError G_IO_ERROR G_IO_ERROR_NOT_FOUND
                             "no text data"))
      end
  end
  /\ (forall r err,
        xb_node_query_text (Some self) (Some xpath) None = Defined (r, err) ->
        (g_error_matches err G_IO_ERROR G_IO_ERROR_NOT_FOUND = true <->
           (exists e,
              xb_silo_query_with_root (silo self) (Some self)
                (xpath_with_element self xpath) 1 = inl e
              /\ g_error_matches (Some e) G_IO_ERROR G_IO_ERROR_NOT_FOUND = true)
           \/ (exists n l,
              xb_silo_query_with_root (silo self) (Some self)
                (xpath_with_element self xpath) 1 = inr (n :: l)
              /\ xb_node_get_text (Some n) = None))
        /\ (r = None <-> err <> None)).
Proof.
  unfold xb_node_query_text. rewrite query_first_cases.
  destruct (xb_silo_query_with_root (silo self) (Some self)
              (xpath_with_element self xpath) 1) as [e | [| n l]] eqn:Hq;
    cbn [mem_bind text_of_match].
  - split; [reflexivity |]. intros r err Hr. inversion Hr; subst r err.
    split; [split |].
    + intros Hm. left. exists e. auto.
    + intros [(e' & He' & Hm) | (n & l & Hn & _)]; [| discriminate].
      now inversion He'; subst e'.
    + split; [discriminate | reflexivity].
  - split; [reflexivity |]. intros r err Hr. discriminate.
  - destruct (xb_node_get_text (Some n)) as [t |] eqn:Ht;
      (split; [reflexivity |]); intros r err Hr; inversion Hr; subst r err.
    + split; [split |].
      * discriminate.
      * intros [(e' & He' & _) | (n' & l' & Hn & Hnone)]; [discriminate |].
        inversion Hn; subst n' l'. congruence.
      * split; [discriminate | intros Hne; now destruct Hne].
    + split; [split |].
      * intros _. right. exists n, l. auto.
      * intros _. reflexivity.
      * split; [discriminate | reflexivity].
Qed.



(** Null arguments of the guarded operations: the sentinel of the return
    type comes back and the error slot is as it was. *)
Lemma null_arguments_give_sentinels (self : option Node)
    (key xpath : option string) (data : option GBytes) (limit : N)
    (flags : XbNodeExportFlags) (error : GErrorSlot) :
  (self = None -> xb_node_get_root self = None /\ xb_node_get_parent self = None
     /\ xb_node_get_next self = None /\ xb_node_get_child self = None
     /\ xb_node_get_text self = None /\ xb_node_get_element self = None
     /\ xb_node_get_depth self = 0%N
     /\ xb_node_export self flags error = (None, error)
     /\ xb_node_set_data self key data = self)
  /\ (self = None \/ key = None ->
      xb_node_get_data self key = None /\ xb_node_get_attr self key = None)
  /\ (key = None \/ data = None -> xb_node_set_data self key data = self)
  /\ (self = None \/ xpath = None ->
      xb_node_query self xpath limit error = (None, error)
      /\ xb_node_query_first self xpath error = Defined (None, error)
      /\ xb_node_query_text self xpath error = Defined (None, error)
      /\ xb_node_query_export self xpath error = Defined (None, error)
      /\ xb_node_query_text_as_uint self xpath error
         = Defined (G_MAXUINT64, error)).
Proof.
  repeat apply conj.
  - intros ->. repeat apply conj; reflexivity.
  - intros [-> | ->]; [split; reflexivity |].
    destruct self; split; reflexivity.
  - intros [-> | ->]; destruct self as [n |]; try reflexivity;
      destruct key; reflexivity.
  - intros [-> | ->]; [repeat apply conj; reflexivity |].
    destruct self; repeat apply conj; reflexivity.
Qed.

(** C7, at the operation that has no guard: with a null [self],
    [xb_node_get_children] does not return [NULL]; whatever the fuel, it
    returns an array, which is empty. *)
Theorem children_of_null_is_an_array (fuel : nat) :
  xb_node_get_children fuel None = Finished [].
Proof. destruct fuel; reflexivity. Qed.

End NodeTheory.

(** * The scenarios of the specification, run on packed silos *)

Module ScenarioFacts.

Import PackedSilo Scenarios.

Lemma query_prefixes_element_witness :
  xb_node_get_element (Some (root_view (silo_a_b "nope"))) = Some "a"
  /\ xpath_with_element (root_view (silo_a_b "nope")) "b" = "a/b".
Proof.
  split; [reflexivity |].
  exact (proj1 (query_prefixes_element (root_view (silo_a_b "nope"))
                  "b" "a" 1%N None eq_refl)).
Defined.

Lemma children_enumerates_siblings_witness :
  (forall x y, xb_silo_node_get_next silo_a_bbb x = Some y ->
               (4 - y < 4 - x)%nat)
  /\ exists l : list PNode,
       follows_next (xb_node_get_child (Some (root_view silo_a_bbb))) l
       /\ (forall fuel, (length l <= fuel)%nat ->
             xb_node_get_children fuel (Some (root_view silo_a_bbb))
             = Finished l)
       /\ sibling_chain_from silo_a_bbb
            (xb_silo_node_get_child silo_a_bbb 0%nat) (List.map sn l)
       /\ Forall (fun v => silo v = silo_a_bbb) l.
Proof.
  assert (Hrank : forall x y, xb_silo_node_get_next silo_a_bbb x = Some y ->
                              (4 - y < 4 - x)%nat).
  { intros x y Hy.
    destruct x as [| [| [| [| [| x]]]]]; vm_compute in Hy;
      try discriminate Hy; inversion Hy; subst y; simpl; lia. }
  split; [exact Hrank |].
  exact (children_enumerates_siblings (root_view silo_a_bbb)
           (fun off => (4 - off)%nat) Hrank).
Defined.

Lemma query_first_index_in_bounds_witness :
  (forall l,
     xb_silo_query_with_root (silo_a_b "nope")
       (Some (root_view (silo_a_b "nope")))
       (xpath_with_element (root_view (silo_a_b "nope")) "b") 1 = inr l ->
     l <> [])
  /\ xb_node_query_first (Some (root_view (silo_a_b "nope"))) (Some "b") None
     <> Undefined.
Proof.
  assert (Hne : forall l,
     xb_silo_query_with_root (silo_a_b "nope")
       (Some (root_view (silo_a_b "nope")))
       (xpath_with_element (root_view (silo_a_b "nope")) "b") 1 = inr l ->
     l <> []).
  { intros l Hl. vm_compute in Hl. inversion Hl. discriminate. }
  split; [exact Hne |].
  exact (proj1 (query_first_index_in_bounds (root_view (silo_a_b "nope"))
                  "b" Hne)).
Defined.

(** Scenario 1 of the specification: the text of [b] in
    [<a><b>hi</b></a>]. *)
Example text_of_b :
  xb_node_query_text (Some (root_view (silo_a_b "hi"))) (Some "b") None
  = Defined (Some "hi", None).
Proof. reflexivity. Qed.

(** Scenario 2: the attribute predicate selects the second [b]. *)
Example text_of_typed_b :
  xb_node_query_text (Some (root_view silo_typed)) (Some "b[@type='y']") None
  = Defined (Some "2", None).
Proof. reflexivity. Qed.

(** Scenario 5: three matches without a limit, two with limit 2. *)
Example query_limits :
  (length <$> (xb_node_query (Some (root_view silo_a_bbb)) (Some "b") 0 None).1)
  = Some 3%nat
  /\ (length <$> (xb_node_query (Some (root_view silo_a_bbb)) (Some "b") 2 None).1)
     = Some 2%nat.
Proof. split; reflexivity. Qed.

(** Scenario 6: no [c] under [a] is reported as not-found. *)
Example query_first_not_found :
  xb_node_query_first (Some (root_view (silo_a_b "hi"))) (Some "c") None
  = Defined (None,
             Some (mkGError G_IO_ERROR G_IO_ERROR_NOT_FOUND "no results")).
Proof. reflexivity. Qed.

(** Scenario 3 of the specification: [<a><b>0x2a</b></a>] gives 42. *)
Example uint_of_hex_text :
  xb_node_query_text_as_uint (Some (root_view (silo_a_b "0x2a"))) (Some "b") None
  = Defined (42, None).
Proof. reflexivity. Qed.

(** A number that does not fit saturates, without an error. *)
Example uint_of_overflowing_text :
  xb_node_query_text_as_uint
    (Some (root_view (silo_a_b "99999999999999999999"))) (Some "b") None
  = Defined (G_MAXUINT64, None).
Proof. reflexivity. Qed.

(** Scenario 5: [children] of [<a><b/><b/><b/></a>] are the three [b]. *)
Example children_of_a_bbb :
  xb_node_get_children 3 (Some (root_view silo_a_bbb))
  = Finished [xb_node_new silo_a_bbb 1%nat; xb_node_new silo_a_bbb 2%nat;
              xb_node_new silo_a_bbb 3%nat].
Proof. reflexivity. Qed.


End ScenarioFacts.

(** * Properties of the reference counts *)

Module LifetimeFacts.

Import Lifetime.

Local Open Scope nat_scope.

Lemma count_of_unref (m : gmap nat nat) (a b : nat) :
  count_of (unref m a) b
  = if decide (a = b) then pred (count_of m b) else count_of m b.
Proof.
  unfold count_of, unref.
  destruct (m !! a) as [[| [| r]] |] eqn:Ha; destruct (decide (a = b)) as [-> | Hne];
    rewrite ?lookup_delete_eq, ?lookup_insert_eq, ?Ha;
    rewrite ?lookup_delete_ne, ?lookup_insert_ne by assumption;
    reflexivity.
Qed.

Lemma count_of_ref (m : gmap nat nat) (a b r : nat) :
  m !! a = Some r ->
  count_of (ref m a) b
  = if decide (a = b) then S (count_of m b) else count_of m b.
Proof.
  intros Ha. unfold count_of, ref. rewrite Ha.
  destruct (decide (a = b)) as [-> | Hne].
  - now rewrite lookup_insert_eq, Ha.
  - now rewrite lookup_insert_ne.
Qed.

Lemma count_of_unref_all (l : list nat) (m : gmap nat nat) (b : nat) :
  count_of (unref_all m l) b = count_of m b - count_occ Nat.eq_dec l b.
Proof.
  induction l as [| x l IH]; simpl.
  - lia.
  - rewrite count_of_unref, IH.
    destruct (decide (x = b)) as [-> | Hne]; destruct (Nat.eq_dec _ b); try congruence; lia.
Qed.

Lemma fresh_node_is_free (w : World) :
  nodes w !! fresh (dom (nodes w)) = None.
Proof. apply not_elem_of_dom. apply is_fresh. Qed.

(** C8, as the code has it.  For a live node [a] and a live buffer [b]:
    [xb_node_new] gives a new instance with one reference and changes no
    reference count, the one of the silo included; [xb_node_set_data]
    leaves the silos alone, makes [b] the entry of [k], adds one
    reference to [b] and takes one from the buffer the entry held; the
    last [unref] of the node removes it, leaves the silos alone and takes
    one reference per entry from the buffers; an earlier [unref] releases
    nothing. *)
Theorem node_holds_buffers_not_silo (w : World) (a : nat) (n : NodeObj)
    (k : string) (b rb : nat)
    (Hnode : nodes w !! a = Some n) (Hbuf : buffers w !! b = Some rb) :
  (forall s x,
     silos (xb_node_new w s x).2 = silos w
     /\ buffers (xb_node_new w s x).2 = buffers w
     /\ nodes w !! (xb_node_new w s x).1 = None
     /\ nodes (xb_node_new w s x).2 !! (xb_node_new w s x).1
        = Some (mkNodeObj 1 s x ∅))
  /\ (silos (xb_node_set_data w (Some a) (Some k) (Some b)) = silos w
      /\ xb_node_get_data (xb_node_set_data w (Some a) (Some k) (Some b))
           (Some a) (Some k) = Some b
      /\ forall b',
           count_of (buffers (xb_node_set_data w (Some a) (Some k) (Some b))) b'
           = count_of (buffers w) b'
             + (if decide (b' = b) then 1 else 0)
             - (if decide (datalist n !! k = Some b') then 1 else 0))
  /\ (ref_count n <= 1 ->
      nodes (node_unref w a) !! a = None
      /\ silos (node_unref w a) = silos w
      /\ forall b',
           count_of (buffers (node_unref w a)) b'
           = count_of (buffers w) b'
             - count_occ Nat.eq_dec (held (datalist n)) b')
  /\ (2 <= ref_count n ->
      is_Some (nodes (node_unref w a) !! a)
      /\ silos (node_unref w a) = silos w
      /\ buffers (node_unref w a) = buffers w).
Proof.
  repeat apply conj.
  - intros s x. unfold xb_node_new; simpl. repeat apply conj; try reflexivity.
    + apply fresh_node_is_free.
    + apply lookup_insert_eq.
  - unfold xb_node_set_data. rewrite Hnode.
    destruct (datalist n !! k); reflexivity.
  - unfold xb_node_set_data, xb_node_get_data. rewrite Hnode.
    destruct (datalist n !! k); simpl;
      rewrite lookup_insert_eq; simpl; apply lookup_insert_eq.
  - intros b'. unfold xb_node_set_data. rewrite Hnode.
    destruct (datalist n !! k) as [old |] eqn:Hold; simpl.
    + rewrite count_of_unref, (count_of_ref _ _ _ _ Hbuf).
      repeat case_decide; subst; try congruence; lia.
    + rewrite (count_of_ref _ _ _ _ Hbuf).
      repeat case_decide; subst; try congruence; lia.
  - intros Hlast. unfold node_unref. rewrite Hnode.
    destruct (ref_count n) as [| [| r]]; simpl; try lia;
      (split; [apply lookup_delete_eq |]);
      (split; [reflexivity |]); intros b'; apply count_of_unref_all.
  - intros Hmore. unfold node_unref. rewrite Hnode.
    destruct (ref_count n) as [| [| r]]; simpl; try lia.
    rewrite lookup_insert_eq. eauto.
Qed.

Lemma node_holds_buffers_not_silo_witness :
  nodes world_with_view !! 0 = Some (mkNodeObj 1 0 7 {[ "k" := 5 ]})
  /\ buffers world_with_view !! 6 = Some 1
  /\ count_of (buffers (xb_node_set_data world_with_view
                          (Some 0) (Some "k") (Some 6))) 6
     = 1 + 1 - 0
  /\ count_of (buffers (xb_node_set_data world_with_view
                          (Some 0) (Some "k") (Some 6))) 5
     = 2 + 0 - 1.
Proof.
  split; [reflexivity |]. split; [reflexivity |].
  pose proof (node_holds_buffers_not_silo world_with_view 0
                (mkNodeObj 1 0 7 {[ "k" := 5 ]}) "k" 6 1
                eq_refl eq_refl) as (_ & (_ & _ & Hset) & _).
  split; [exact (Hset 6) | exact (Hset 5)].
Defined.

(** C8 fails on its first half: [xb_node_new] takes no reference on the
    silo.  From a silo with the caller's single reference, the count is
    still 1 after a view is made; once the caller lets go, the silo is
    released while the view is still there and still points to it. *)
Lemma silo_released_under_live_view :
  count_of (silos world_with_silo) 0 = 1
  /\ count_of (silos (xb_node_new world_with_silo 0 7).2) 0 = 1
  /\ silos (silo_unref (xb_node_new world_with_silo 0 7).2 0) !! 0 = None
  /\ n_silo <$> nodes (silo_unref (xb_node_new world_with_silo 0 7).2 0)
                  !! (xb_node_new world_with_silo 0 7).1 = Some 0.
Proof. repeat split; vm_compute; reflexivity. Qed.

End LifetimeFacts.

(** * Properties of the command line tool *)

Module XbToolFacts.

Import XbTool.

Section ToolTheory.

Context {XbSilo XbSiloNode : Type} `{!XbSiloApi XbSilo XbSiloNode}.

Variable lib : @Library XbSilo XbSiloNode.

Lemma cmd_array_sorted :
  cmd_array lib
  = [ mkItem "compile" (Some "FILENAME-FROM FILENAME-TO")
        "Compile XML to XMLb" (xb_tool_compile lib);
      mkItem "dump" (Some "FILENAME") "Dumps a XMLb file" (xb_tool_dump lib);
      mkItem "export" (Some "FILENAME") "Exports a XMLb file"
        (xb_tool_export lib);
      mkItem "query" (Some "FILENAME") "Queries a XMLb file"
        (xb_tool_query lib) ].
Proof. reflexivity. Qed.

Lemma run_unknown_command (priv : XbToolPrivate) (command : option string)
    (values : list string) :
  command <> Some "compile" -> command <> Some "dump" ->
  command <> Some "export" -> command <> Some "query" ->
  xb_tool_run lib priv command values
  = ([], inl (mkGError G_IO_ERROR G_IO_ERROR_FAILED "Command not found")).
Proof.
  intros Hc Hd He Hq. unfold xb_tool_run. rewrite cmd_array_sorted.
  destruct command as [c |]; [| reflexivity].
  cbn [xb_tool_run_items g_strcmp0_eq name].
  destruct (String.eqb_spec "compile" c) as [<- | _]; [congruence |].
  destruct (String.eqb_spec "dump" c) as [<- | _]; [congruence |].
  destruct (String.eqb_spec "export" c) as [<- | _]; [congruence |].
  destruct (String.eqb_spec "query" c) as [<- | _]; [congruence |].
  reflexivity.
Qed.

(** C9, as the code has it.  [main] returns 1 with the one line
    [Failed to parse arguments] and no help when the options do not
    parse; otherwise it returns 0 when the command returns [TRUE], and 1
    with the message of the error when it returns [FALSE], followed by
    the help exactly when the error is [G_IO_ERROR_FAILED] of
    [G_IO_ERROR].  That is the kind of the error of every argument check
    of the four commands, and of [Command not found]. *)
Theorem main_exit_and_help (argv : list string) :
  match g_option_context_parse lib argv with
  | inl e =>
      main lib argv
      = (EXIT_FAILURE,
         ["Failed to parse arguments: " ++ message e ++ newline])
  | inr (_, force_, argv') =>
      match xb_tool_run lib (mkPriv force_) (nth_error argv' 1)
              (skipn 2 argv') with
      | (printed, inr _) => main lib argv = (EXIT_SUCCESS, printed)
      | (printed, inl e) =>
          main lib argv
          = (EXIT_FAILURE,
             g_print printed
               (if g_error_matches (Some e) G_IO_ERROR G_IO_ERROR_FAILED
                then message e ++ newline ++ newline ++ help_text lib
                else message e ++ newline))
      end
  end
  /\ ((main lib argv).1 = EXIT_SUCCESS <-> main_error lib argv = None)
  /\ ((main lib argv).1 = EXIT_FAILURE <-> main_error lib argv <> None)
  /\ (forall priv command values,
        command = Some "dump" /\ values = []
        \/ command = Some "export" /\ values = []
        \/ command = Some "query" /\ length values <> 2%nat
        \/ command = Some "compile" /\ (length values < 2)%nat ->
        exists e,
          xb_tool_run lib priv command values = ([], inl e)
          /\ invalid_arguments_error e = true
          /\ g_error_matches (Some e) G_IO_ERROR G_IO_ERROR_FAILED = true)
  /\ (forall priv command values,
        command <> Some "compile" -> command <> Some "dump" ->
        command <> Some "export" -> command <> Some "query" ->
        exists e,
          xb_tool_run lib priv command values = ([], inl e)
          /\ message e = "Command not found"
          /\ g_error_matches (Some e) G_IO_ERROR G_IO_ERROR_FAILED = true).
Proof.
  split; [| split; [| split; [| split]]].
  - unfold main.
    destruct (g_option_context_parse lib argv) as [e | [[v f] argv']];
      [reflexivity |].
    destruct (xb_tool_run lib (mkPriv f) (nth_error argv' 1) (skipn 2 argv'))
      as [printed [e | u]]; [| reflexivity].
    destruct (g_error_matches (Some e) G_IO_ERROR G_IO_ERROR_FAILED);
      reflexivity.
  - unfold main, main_error.
    destruct (g_option_context_parse lib argv) as [e | [[v f] argv']];
      [split; discriminate |].
    destruct (xb_tool_run lib (mkPriv f) (nth_error argv' 1) (skipn 2 argv'))
      as [printed [e | u]]; [| split; reflexivity].
    destruct (g_error_matches (Some e) G_IO_ERROR G_IO_ERROR_FAILED);
      split; discriminate.
  - unfold main, main_error.
    destruct (g_option_context_parse lib argv) as [e | [[v f] argv']];
      [split; [discriminate | reflexivity] |].
    destruct (xb_tool_run lib (mkPriv f) (nth_error argv' 1) (skipn 2 argv'))
      as [printed [e | u]].
    + destruct (g_error_matches (Some e) G_IO_ERROR G_IO_ERROR_FAILED);
        split; [discriminate | reflexivity | discriminate | reflexivity].
    + split; [discriminate | intros Hn; now destruct Hn].
  - intros priv command values Hcase.
    unfold xb_tool_run. rewrite cmd_array_sorted.
    destruct Hcase as [[-> ->] | [[-> ->] | [[-> Hlen] | [-> Hlen]]]].
    + eexists. repeat split; reflexivity.
    + eexists. repeat split; reflexivity.
    + destruct values as [| a [| b [| c values]]]; simpl in Hlen;
        try lia; eexists; repeat split; reflexivity.
    + destruct values as [| a [| b values]]; simpl in Hlen;
        try lia; eexists; repeat split; reflexivity.
  - intros priv command values Hc Hd He Hq.
    rewrite run_unknown_command by assumption.
    eexists. repeat split; reflexivity.
Qed.

End ToolTheory.

Import PackedSilo Scenarios.

(** C9 fails on [xb-tool frobnicate]: the failure is [Command not found],
    not one of the invalid-arguments errors, and the help is printed all
    the same.  And [xb-tool --bogus] fails on its arguments without any
    help: whatever errors one counts as invalid arguments, the contract
    holds on both command lines only if [Command not found] is one of
    them and the unknown option is not. *)
Lemma help_on_command_not_found :
  ~ help_exactly_on_invalid_arguments demo_library ["xb-tool"; "frobnicate"]
  /\ main demo_library ["xb-tool"; "frobnicate"]
     = (1, ["Command not found" ++ newline ++ newline
            ++ help_text demo_library])
  /\ main demo_library ["xb-tool"; "--bogus"]
     = (1, ["Failed to parse arguments: Unknown option --bogus" ++ newline])
  /\ (forall P : GError -> Prop,
        help_exactly_when demo_library P ["xb-tool"; "frobnicate"] ->
        help_exactly_when demo_library P ["xb-tool"; "--bogus"] ->
        P (mkGError G_IO_ERROR G_IO_ERROR_FAILED "Command not found")
        /\ ~ P (mkGError G_OPTION_ERROR 0 "Unknown option --bogus")).
Proof.
  assert (Hcmd : main_error demo_library ["xb-tool"; "frobnicate"]
                 = Some (mkGError G_IO_ERROR G_IO_ERROR_FAILED
                           "Command not found")) by reflexivity.
  assert (Hopt : main_error demo_library ["xb-tool"; "--bogus"]
                 = Some (mkGError G_OPTION_ERROR 0 "Unknown option --bogus"))
    by reflexivity.
  assert (Hshown : ends_with_help demo_library
                     (main demo_library ["xb-tool"; "frobnicate"]).2
                     (mkGError G_IO_ERROR G_IO_ERROR_FAILED
                        "Command not found")) by (vm_compute; reflexivity).
  assert (Hhidden : ~ ends_with_help demo_library
                     (main demo_library ["xb-tool"; "--bogus"]).2
                     (mkGError G_OPTION_ERROR 0 "Unknown option --bogus")).
  { intros Hh. vm_compute in Hh. discriminate Hh. }
  split; [| split; [reflexivity | split; [reflexivity |]]].
  - unfold help_exactly_on_invalid_arguments, help_exactly_when.
    rewrite Hcmd. intros [_ [Hiff _]].
    specialize (Hiff Hshown). vm_compute in Hiff. discriminate Hiff.
  - intros P. unfold help_exactly_when. rewrite Hcmd, Hopt.
    intros [_ [Hiff _]] [_ [_ Hiff']]. split; [exact (Hiff Hshown) |].
    intros HP. exact (Hhidden (Hiff' HP)).
Qed.

End XbToolFacts.

(** * What the parser reads *)

Module ParserFacts.

Import Numerals.

Lemma digit_value_of_char (d : Z) :
  0 <= d < 36 -> digit_value (digit_char d) = Some d.
Proof.
  intros Hd.
  assert (Hn : exists n : nat, d = Z.of_nat n /\ (n < 36)%nat)
    by (exists (Z.to_nat d); lia).
  destruct Hn as (n & -> & Hn).
  do 36 (destruct n as [| n]; [reflexivity |]). lia.
Qed.

(** A digit below 16 is neither white space, nor a sign, nor the [x] of
    the prefix. *)
Lemma xdigit_plain (c : ascii) (d : Z) :
  digit_value c = Some d -> d < 16 ->
  ISSPACE c = false
  /\ (chr c =? 45) = false
  /\ (chr c =? 43) = false
  /\ (TOUPPER c =? 88) = false.
Proof.
  intros Hd Hlt.
  destruct c as [b0 b1 b2 b3 b4 b5 b6 b7].
  destruct b0, b1, b2, b3, b4, b5, b6, b7; vm_compute in Hd;
    try discriminate Hd; inversion Hd; subst d;
    first [lia | repeat split; reflexivity].
Qed.

Lemma digits_from_grows (base : Z) (ds : list Z) :
  2 <= base -> digits_below base ds ->
  forall acc, 0 <= acc -> acc <= digits_from base acc ds.
Proof.
  intros Hb Hds. induction Hds as [| d ds Hd _ IH]; intros acc Hacc;
    cbn [digits_from fold_left]; [lia |].
  fold (digits_from base (acc * base + d) ds).
  specialize (IH (acc * base + d) ltac:(nia)). nia.
Qed.

Lemma text_digits_below (base : Z) (s : string) :
  digits_text base s = true -> digits_below base (text_digits s).
Proof.
  induction s as [| c rest IH]; cbn [digits_text text_digits];
    [constructor |].
  destruct (digit_value c) as [d |] eqn:Hd; [| discriminate].
  intros Hs. apply andb_true_iff in Hs. destruct Hs as [Hlt Hrest].
  apply Z.ltb_lt in Hlt. constructor; [| now apply IH].
  apply digit_value_nonneg in Hd. cbn. lia.
Qed.

(** Once the overflow flag is up it stays up. *)
Lemma parse_digits_overflow_stays (base cutoff cutlim : Z) (s : string) :
  forall ui64 moved,
    (parse_digits base cutoff cutlim s ui64 true moved).1.2 = true.
Proof.
  induction s as [| c rest IH]; intros ui64 moved; cbn [parse_digits];
    [reflexivity |].
  destruct (digit_value c) as [d |]; [| reflexivity].
  destruct (d >=? base); [reflexivity |].
  destruct ((ui64 >? cutoff) || ((ui64 =? cutoff) && (d >? cutlim))); apply IH.
Qed.

Lemma parse_digits_moved_stays (base cutoff cutlim : Z) (s : string) :
  forall ui64 overflow,
    (parse_digits base cutoff cutlim s ui64 overflow true).2 = true.
Proof.
  induction s as [| c rest IH]; intros ui64 overflow; cbn [parse_digits];
    [reflexivity |].
  destruct (digit_value c) as [d |]; [| reflexivity].
  destruct (d >=? base); [reflexivity |].
  destruct ((ui64 >? cutoff) || ((ui64 =? cutoff) && (d >? cutlim))); apply IH.
Qed.

(** The digit loop on a text of digits: all of it is read; without
    overflow the accumulator ends as the number, and the flag is up
    exactly when the number is beyond [G_MAXUINT64]. *)
Lemma parse_digits_text (base : Z) (s : string) :
  2 <= base <= 36 -> digits_text base s = true ->
  forall acc moved,
    0 <= acc <= G_MAXUINT64 ->
    let r := parse_digits base (G_MAXUINT64 / base) (G_MAXUINT64 mod base)
               s acc false moved in
    r.2 = (moved || negb (String.eqb s EmptyString))
    /\ (digits_from base acc (text_digits s) <= G_MAXUINT64 ->
        r.1.1 = digits_from base acc (text_digits s) /\ r.1.2 = false)
    /\ (G_MAXUINT64 < digits_from base acc (text_digits s) -> r.1.2 = true).
Proof.
  intros Hb.
  pose proof (Z.div_mod G_MAXUINT64 base ltac:(lia)) as Hdm.
  pose proof (Z.mod_pos_bound G_MAXUINT64 base ltac:(lia)) as Hm.
  set (cutoff := G_MAXUINT64 / base) in *.
  set (cutlim := G_MAXUINT64 mod base) in *.
  induction s as [| c rest IH]; intros Hs acc moved Hacc.
  - cbn. rewrite orb_false_r. repeat split; try reflexivity. lia.
  - pose proof (text_digits_below base _ Hs) as Hbelow.
    cbn [digits_text text_digits] in Hs, Hbelow |- *.
    destruct (digit_value c) as [d |] eqn:Hd; [| discriminate].
    apply andb_true_iff in Hs. destruct Hs as [Hlt Hrest].
    apply Z.ltb_lt in Hlt.
    pose proof (digit_value_nonneg c d Hd) as Hd0.
    change (default 0 (Some d)) with d in *.
    apply Forall_cons in Hbelow. destruct Hbelow as [_ Hbelow].
    cbn [parse_digits digits_from fold_left]. rewrite Hd.
    fold (digits_from base (acc * base + d) (text_digits rest)).
    destruct (Z.geb_spec d base) as [Hge | _]; [lia |].
    cbn [String.eqb negb]. rewrite orb_true_r.
    destruct ((acc >? cutoff) || ((acc =? cutoff) && (d >? cutlim))) eqn:Hov.
    + assert (Hbig : G_MAXUINT64 < acc * base + d).
      { apply orb_true_iff in Hov. destruct Hov as [Hgt | Heq].
        - apply Z.gtb_lt in Hgt. nia.
        - apply andb_true_iff in Heq. destruct Heq as [Heq Hgt].
          apply Z.eqb_eq in Heq. apply Z.gtb_lt in Hgt. subst acc. nia. }
      pose proof (digits_from_grows base _ ltac:(lia) Hbelow (acc * base + d)
                    ltac:(nia)) as Hgrow.
      split; [| split].
      * apply parse_digits_moved_stays.
      * intros Hfit. lia.
      * intros _. apply parse_digits_overflow_stays.
    + assert (Hfit : acc * base + d <= G_MAXUINT64).
      { apply orb_false_iff in Hov. destruct Hov as [Hgt Heq].
        rewrite Z.gtb_ltb, Z.ltb_ge in Hgt.
        apply andb_false_iff in Heq. destruct Heq as [Hne | Hle].
        - apply Z.eqb_neq in Hne. nia.
        - rewrite Z.gtb_ltb, Z.ltb_ge in Hle. nia. }
      destruct (IH Hrest (acc * base + d) true ltac:(nia))
        as (Hmoved & Hok & Hbad).
      split; [| split].
      * rewrite Hmoved. reflexivity.
      * exact Hok.
      * exact Hbad.
Qed.

Lemma read_prefix_other (base : Z) (s : string) :
  base <> 0 -> base <> 16 -> read_prefix base s = (base, s).
Proof.
  intros H0 H16. unfold read_prefix.
  apply Z.eqb_neq in H0. apply Z.eqb_neq in H16. rewrite H0, H16.
  destruct s as [| c [| x rest]]; simpl; try reflexivity;
    destruct (chr c =? 48); reflexivity.
Qed.

Lemma digits_text_head (base : Z) (c : ascii) (rest : string) :
  digits_text base (String c rest) = true ->
  exists d, digit_value c = Some d /\ d < base
            /\ digits_text base rest = true.
Proof.
  cbn [digits_text]. destruct (digit_value c) as [d |]; [| discriminate].
  intros Hs. apply andb_true_iff in Hs. destruct Hs as [Hlt Hrest].
  apply Z.ltb_lt in Hlt. eauto.
Qed.

Lemma read_prefix_hex_text (s : string) :
  digits_text 16 s = true -> read_prefix 16 s = (16, s).
Proof.
  intros Hs. unfold read_prefix.
  destruct s as [| c rest]; [reflexivity |].
  destruct (digits_text_head _ _ _ Hs) as (_ & _ & _ & Hrest).
  destruct (chr c =? 48); [| reflexivity].
  destruct rest as [| x rest']; [reflexivity |].
  destruct (digits_text_head _ _ _ Hrest) as (d & Hd & Hlt & _).
  destruct (xdigit_plain x d Hd Hlt) as (_ & _ & _ & ->). reflexivity.
Qed.

(** A text of digits below 16 starts with neither white space nor a
    sign. *)
Lemma digits_text_plain (base : Z) (s : string) :
  base <= 16 -> digits_text base s = true ->
  skip_space s = s /\ read_sign s = (false, s).
Proof.
  intros Hb Hs. destruct s as [| c rest]; [split; reflexivity |].
  destruct (digits_text_head _ _ _ Hs) as (d & Hd & Hlt & _).
  destruct (xdigit_plain c d Hd ltac:(lia)) as (Hsp & Hm & Hp & _).
  cbn [skip_space read_sign]. now rewrite Hsp, Hm, Hp.
Qed.

(** The scan of a text of digits: no sign, the number when it fits, and
    the overflow flag exactly when it does not. *)
Lemma scan_digits_text (base : Z) (s : string) :
  2 <= base <= 16 -> s <> EmptyString -> digits_text base s = true ->
  read_prefix base s = (base, s) ->
  exists ui64,
    strtoull_scan s base
    = (ui64, false,
       negb (digits_value base (text_digits s) <=? G_MAXUINT64))
    /\ (digits_value base (text_digits s) <= G_MAXUINT64 ->
        ui64 = digits_value base (text_digits s)).
Proof.
  intros Hb Hne Hs Hprefix.
  destruct (digits_text_plain base s ltac:(lia) Hs) as [Hspace Hsign].
  unfold strtoull_scan.
  replace ((base =? 1) || (base >? 36)) with false
    by (symmetry; apply orb_false_iff; split;
        [apply Z.eqb_neq | rewrite Z.gtb_ltb; apply Z.ltb_ge]; lia).
  rewrite Hspace.
  destruct s as [| c0 s0] eqn:Hstr; [congruence |].
  rewrite Hsign, Hprefix. rewrite <- Hstr in *.
  pose proof (parse_digits_text base s ltac:(lia) Hs 0 false
                ltac:(unfold G_MAXUINT64; lia)) as (Hmoved & Hfit & Hover).
  destruct (parse_digits base (G_MAXUINT64 / base) (G_MAXUINT64 mod base)
              s 0 false false) as [[ui64 overflow] moved].
  cbn [fst snd] in *.
  replace (String.eqb s EmptyString) with false in Hmoved
    by (symmetry; apply String.eqb_neq; congruence).
  cbn in Hmoved. subst moved. cbn [negb].
  fold (digits_value base (text_digits s)) in *.
  exists ui64.
  destruct (Z.leb_spec (digits_value base (text_digits s)) G_MAXUINT64)
    as [Hle | Hgt].
  - destruct (Hfit Hle) as [-> ->]. split; reflexivity.
  - rewrite (Hover Hgt). split; [reflexivity | lia].
Qed.

(** The scan behind a minus sign is the scan without it, with the flag
    [negative]. *)
Lemma scan_minus (s : string) (base : Z) :
  s <> EmptyString -> skip_space s = s -> read_sign s = (false, s) ->
  strtoull_scan (String "-" s) base
  = if (base =? 1) || (base >? 36) then (0, false, false)
    else ((strtoull_scan s base).1.1, true, (strtoull_scan s base).2).
Proof.
  intros Hne Hspace Hsign. unfold strtoull_scan.
  destruct ((base =? 1) || (base >? 36)); [reflexivity |].
  rewrite Hspace.
  assert (Hs : skip_space (String "-" s) = String "-" s) by reflexivity.
  assert (Hm : read_sign (String "-" s) = (true, s)) by reflexivity.
  rewrite Hs, Hm.
  destruct s as [| c0 s0]; [congruence |].
  rewrite Hsign.
  destruct (read_prefix base (String c0 s0)) as [base' s'].
  destruct (parse_digits base' (G_MAXUINT64 / base') (G_MAXUINT64 mod base')
              s' 0 false false) as [[ui64 overflow] moved].
  destruct moved; reflexivity.
Qed.

Lemma strtoull_digits_text (base : Z) (s : string) :
  2 <= base <= 16 -> s <> EmptyString -> digits_text base s = true ->
  read_prefix base s = (base, s) ->
  g_ascii_strtoull s base
  = Z.min (digits_value base (text_digits s)) G_MAXUINT64.
Proof.
  intros Hb Hne Hs Hprefix. unfold g_ascii_strtoull.
  destruct (scan_digits_text base s Hb Hne Hs Hprefix) as (ui64 & -> & Hui).
  destruct (Z.leb_spec (digits_value base (text_digits s)) G_MAXUINT64)
    as [Hle | Hgt]; cbn [negb].
  - rewrite (Hui Hle). now rewrite Z.min_l.
  - rewrite Z.min_r by lia. reflexivity.
Qed.

Lemma strtoull_minus_digits_text (base : Z) (s : string) :
  2 <= base <= 16 -> s <> EmptyString -> digits_text base s = true ->
  read_prefix base s = (base, s) ->
  g_ascii_strtoull (String "-" s) base
  = if digits_value base (text_digits s) <=? G_MAXUINT64
    then (- digits_value base (text_digits s)) mod 2 ^ 64
    else G_MAXUINT64.
Proof.
  intros Hb Hne Hs Hprefix. unfold g_ascii_strtoull.
  destruct (digits_text_plain base s ltac:(lia) Hs) as [Hspace Hsign].
  rewrite (scan_minus s base Hne Hspace Hsign).
  replace ((base =? 1) || (base >? 36)) with false
    by (symmetry; apply orb_false_iff; split;
        [apply Z.eqb_neq | rewrite Z.gtb_ltb; apply Z.ltb_ge]; lia).
  destruct (scan_digits_text base s Hb Hne Hs Hprefix) as (ui64 & -> & Hui).
  cbn [fst snd].
  destruct (Z.leb_spec (digits_value base (text_digits s)) G_MAXUINT64)
    as [Hle | Hgt]; cbn [negb]; [| reflexivity].
  now rewrite (Hui Hle).
Qed.

Lemma decimal_text_no_hex_prefix (s : string) :
  digits_text 10 s = true -> g_str_has_prefix s "0x" = false.
Proof.
  intros Hs. unfold g_str_has_prefix.
  destruct s as [| c rest]; [reflexivity |].
  destruct (digits_text_head _ _ _ Hs) as (_ & _ & _ & Hrest).
  cbn [String.prefix].
  destruct (ascii_dec "0" c); [| reflexivity].
  destruct rest as [| c' rest']; [reflexivity |].
  cbn [String.prefix].
  destruct (ascii_dec "x" c') as [<- |]; [| reflexivity].
  destruct (digits_text_head _ _ _ Hrest) as (d & Hd & Hlt & _).
  vm_compute in Hd. inversion Hd; subst d. lia.
Qed.

Lemma substring_all (s : string) : String.substring 0 (String.length s) s = s.
Proof. induction s as [| c s IH]; simpl; [reflexivity | now rewrite IH]. Qed.

Lemma str_skip_two (a b : ascii) (s : string) :
  str_skip 2 (String a (String b s)) = s.
Proof.
  unfold str_skip. cbn [String.length Nat.sub String.substring].
  rewrite Nat.sub_0_r. apply substring_all.
Qed.

(** A text of decimal digits is read in base 10, up to [G_MAXUINT64]. *)
Lemma text_as_uint_decimal_text (s : string) :
  s <> EmptyString -> digits_text 10 s = true ->
  text_as_uint s = Z.min (digits_value 10 (text_digits s)) G_MAXUINT64.
Proof.
  intros Hne Hs. unfold text_as_uint.
  rewrite decimal_text_no_hex_prefix by assumption.
  apply strtoull_digits_text; try assumption; [lia |].
  apply read_prefix_other; lia.
Qed.


(** The text written for digits is a text of those digits. *)
Lemma digits_string_text (base : Z) (ds : list Z) :
  base <= 36 -> digits_below base ds ->
  digits_text base (digits_string ds) = true
  /\ text_digits (digits_string ds) = ds.
Proof.
  intros Hb Hds. induction Hds as [| d ds Hd _ [IHt IHd]];
    [split; reflexivity |].
  cbn [digits_string digits_text text_digits].
  rewrite digit_value_of_char by lia. cbn [default].
  rewrite IHt, IHd. split; [| reflexivity].
  apply andb_true_iff. split; [apply Z.ltb_lt; lia | reflexivity].
Qed.

Lemma digits_string_nonempty (ds : list Z) :
  ds <> [] -> digits_string ds <> EmptyString.
Proof. destruct ds; [congruence | discriminate]. Qed.

(** X1: a decimal numeral: [xb_node_query_text_as_uint] gives the number it
    denotes, or [G_MAXUINT64] when the number does not fit. *)
Theorem text_as_uint_decimal (ds : list Z) :
  ds <> [] -> digits_below 10 ds ->
  text_as_uint (digits_string ds) = Z.min (digits_value 10 ds) G_MAXUINT64.
Proof.
  intros Hne Hds.
  destruct (digits_string_text 10 ds ltac:(lia) Hds) as [Ht Hd].
  rewrite (text_as_uint_decimal_text _ (digits_string_nonempty ds Hne) Ht).
  now rewrite Hd.
Qed.

(** X2: behind [0x], a text of hexadecimal digits, with the letters in
    either case, gives the number it denotes in base 16, or
    [G_MAXUINT64] when the number does not fit. *)
Theorem text_as_uint_hexadecimal (s : string) :
  s <> EmptyString -> digits_text 16 s = true ->
  text_as_uint (String "0" (String "x" s))
  = Z.min (digits_value 16 (text_digits s)) G_MAXUINT64.
Proof.
  intros Hne Hs. unfold text_as_uint.
  replace (g_str_has_prefix (String "0" (String "x" s)) "0x") with true
    by (unfold g_str_has_prefix; cbn; now destruct s).
  rewrite str_skip_two.
  rewrite (strtoull_digits_text 16 s ltac:(lia) Hne Hs
             (read_prefix_hex_text s Hs)).
  reflexivity.
Qed.

(** X3: a minus sign before a decimal numeral is accepted: a number that
    fits is negated as a [guint64], and a number that does not fit gives
    [G_MAXUINT64] as it does without the sign. *)
Theorem text_as_uint_minus (ds : list Z) :
  ds <> [] -> digits_below 10 ds ->
  text_as_uint (String "-" (digits_string ds))
  = if digits_value 10 ds <=? G_MAXUINT64
    then (- digits_value 10 ds) mod 2 ^ 64
    else G_MAXUINT64.
Proof.
  intros Hne Hds. unfold text_as_uint.
  replace (g_str_has_prefix (String "-" (digits_string ds)) "0x") with false
    by reflexivity.
  destruct (digits_string_text 10 ds ltac:(lia) Hds) as [Ht Hd].
  rewrite (strtoull_minus_digits_text 10 _ ltac:(lia)
             (digits_string_nonempty ds Hne) Ht
             (read_prefix_other 10 _ ltac:(lia) ltac:(lia))).
  now rewrite Hd.
Qed.

(** X4: only [0x] at the very start of the text selects base 16: behind an
    upper-case [0X], or behind [0x] after a blank, the text is read in
    base 10, which stops after the [0]. *)
Theorem text_as_uint_other_prefix (rest : string) :
  text_as_uint (String "0" (String "X" rest)) = 0
  /\ text_as_uint (String " " (String "0" (String "x" rest))) = 0.
Proof. split; reflexivity. Qed.

Lemma text_as_uint_decimal_witness :
  [1; 2; 3] <> [] /\ digits_below 10 [1; 2; 3]
  /\ text_as_uint "123" = 123.
Proof.
  assert (Hne : [1; 2; 3] <> []) by discriminate.
  assert (Hds : digits_below 10 [1; 2; 3])
    by (repeat constructor; lia).
  split; [exact Hne |]. split; [exact Hds |].
  exact (text_as_uint_decimal [1; 2; 3] Hne Hds).
Defined.

Lemma text_as_uint_hexadecimal_witness :
  "fF" <> EmptyString /\ digits_text 16 "fF" = true
  /\ text_as_uint "0xfF" = 255.
Proof.
  assert (Hne : "fF" <> EmptyString) by discriminate.
  split; [exact Hne |]. split; [reflexivity |].
  exact (text_as_uint_hexadecimal "fF" Hne eq_refl).
Defined.

Lemma text_as_uint_minus_witness :
  [1] <> [] /\ digits_below 10 [1]
  /\ text_as_uint "-1" = G_MAXUINT64.
Proof.
  assert (Hne : [1] <> []) by discriminate.
  assert (Hds : digits_below 10 [1]) by (repeat constructor; lia).
  split; [exact Hne |]. split; [exact Hds |].
  exact (text_as_uint_minus [1] Hne Hds).
Defined.

(** The host's answer to a minus sign before a number that does not
    fit. *)
Example uint_of_minus_overflow :
  text_as_uint "-18446744073709551616" = G_MAXUINT64.
Proof. reflexivity. Qed.

End ParserFacts.

(** * More about the node view *)

Section NodeUse.

Context {XbSilo XbSiloNode : Type} `{!XbSiloApi XbSilo XbSiloNode}.

Local Abbreviation Node := (XbNode XbSilo XbSiloNode).

(** X7: keyed data: what was stored under [k] is what is read under [k], the
    other keys read as before, and the view still shows the same silo
    node. *)
Theorem set_data_then_get_data (n : Node) (k k' : string) (d : GBytes) :
  xb_node_get_data (xb_node_set_data (Some n) (Some k) (Some d)) (Some k')
  = (if decide (k = k') then Some d else xb_node_get_data (Some n) (Some k'))
  /\ silo <$> xb_node_set_data (Some n) (Some k) (Some d) = Some (silo n)
  /\ sn <$> xb_node_set_data (Some n) (Some k) (Some d) = Some (sn n).
Proof.
  unfold xb_node_set_data, xb_node_get_data. cbn [qdata].
  repeat split. rewrite lookup_insert. now destruct (decide (k = k')).
Qed.

Lemma children_loop_finished (fuel : nat) :
  forall (o : option Node) (acc r : list Node),
    children_loop fuel o acc = Finished r ->
    exists l, r = (acc ++ l)%list /\ follows_next o l /\ (length l <= fuel)%nat.
Proof.
  induction fuel as [| fuel IH]; intros [x |] acc r Hr; cbn in Hr;
    try discriminate.
  - inversion Hr; subst r. exists []. rewrite app_nil_r.
    repeat split; [constructor | simpl; lia].
  - destruct (IH _ _ _ Hr) as (l & -> & Hl & Hlen).
    exists (x :: l). rewrite <- app_assoc. repeat split.
    + now constructor.
    + simpl; lia.
  - inversion Hr; subst r. exists []. rewrite app_nil_r.
    repeat split; [constructor | simpl; lia].
Qed.

(** X8: whatever the silo, an array returned by [xb_node_get_children] is the
    first child followed by its next siblings up to the one without a
    next sibling, and one unit of fuel was used per element. *)
Theorem children_finished_is_chain (fuel : nat) (n : Node) (l : list Node) :
  xb_node_get_children fuel (Some n) = Finished l ->
  follows_next (xb_node_get_child (Some n)) l /\ (length l <= fuel)%nat.
Proof.
  intros Hl. unfold xb_node_get_children in Hl.
  destruct (children_loop_finished _ _ _ _ Hl) as (l' & -> & Hf & Hlen).
  now split.
Qed.

(** X9: [xb_node_get_children] returns an empty array exactly when the node
    has no first child. *)
Theorem children_empty_iff_no_child (fuel : nat) (n : Node) :
  xb_node_get_children fuel (Some n) = Finished []
  <-> xb_node_get_child (Some n) = None.
Proof.
  split.
  - intros Hl. unfold xb_node_get_children in Hl.
    destruct (children_loop_finished _ _ _ _ Hl) as (l' & Heq & Hf & _).
    destruct l'; [| discriminate]. now inversion Hf.
  - intros Hc. unfold xb_node_get_children. rewrite Hc.
    destruct fuel; reflexivity.
Qed.

Lemma children_loop_closed (P : XbSiloNode -> Prop) (s : XbSilo) :
  (forall y, P y -> exists z, xb_silo_node_get_next s y = Some z /\ P z) ->
  forall (fuel : nat) (x : XbSiloNode) (acc : list Node),
    P x -> children_loop fuel (Some (mkXbNode s x ∅)) acc = OutOfFuel.
Proof.
  intros Hclosed fuel. induction fuel as [| fuel IH]; intros x acc Hx;
    [reflexivity |].
  cbn [children_loop]. destruct (Hclosed x Hx) as (z & Hz & HPz).
  unfold xb_node_get_next. cbn [silo sn]. rewrite Hz. now apply IH.
Qed.

(** X10: the loop has no guard against a cycle: when the first child lies in
    a set of silo nodes that [next] never leaves, no amount of fuel lets
    [xb_node_get_children] finish. *)
Theorem children_of_cyclic_siblings (P : XbSiloNode -> Prop) (n : Node)
    (x : XbSiloNode) (fuel : nat)
    (Hclosed : forall y, P y ->
       exists z, xb_silo_node_get_next (silo n) y = Some z /\ P z)
    (Hchild : xb_silo_node_get_child (silo n) (sn n) = Some x)
    (Hx : P x) :
  xb_node_get_children fuel (Some n) = OutOfFuel.
Proof.
  unfold xb_node_get_children, xb_node_get_child. rewrite Hchild.
  now apply (children_loop_closed P).
Qed.

(** X5: [xb_node_query_text_as_uint] answers as [xb_node_query_text] does:
    [G_MAXUINT64] with the same error where that one returns [NULL], and
    the number read from the text it returns otherwise. *)
Theorem uint_follows_query_text (self : option Node) (xpath : option string)
    (error : GErrorSlot) :
  xb_node_query_text_as_uint self xpath error
  = match xb_node_query_text self xpath error with
    | Defined (Some t, error') => Defined (text_as_uint t, error')
    | Defined (None, error') => Defined (G_MAXUINT64, error')
    | Undefined => Undefined
    end.
Proof.
  unfold xb_node_query_text_as_uint, xb_node_query_text.
  destruct self as [n |]; [| reflexivity].
  destruct xpath as [xp |]; [| reflexivity].
  destruct (xb_node_query_first (Some n) (Some xp) error) as [[[m |] e] |];
    cbn [mem_bind uint_of_match text_of_match]; try reflexivity.
  destruct (xb_node_get_text (Some m)); reflexivity.
Qed.

(** X6: the [GError] rule, for arguments that are not [NULL] and an empty
    slot: [xb_node_query], [xb_node_query_first] and
    [xb_node_query_export] return [NULL] exactly when they leave an
    error in the slot. *)
Theorem null_result_iff_error (n : Node) (xp : string) (limit : N) :
  ((xb_node_query (Some n) (Some xp) limit None).1 = None
   <-> (xb_node_query (Some n) (Some xp) limit None).2 <> None)
  /\ (forall r err,
        xb_node_query_first (Some n) (Some xp) None = Defined (r, err) ->
        (r = None <-> err <> None))
  /\ (forall r err,
        xb_node_query_export (Some n) (Some xp) None = Defined (r, err) ->
        (r = None <-> err <> None)).
Proof.
  split; [| split].
  - unfold xb_node_query. rewrite returned_empty_slot.
    destruct (xb_silo_query_with_root _ _ _ _); cbn; split; congruence.
  - intros r err. rewrite query_first_cases.
    destruct (xb_silo_query_with_root _ _ _ _) as [e | [| m l]];
      intros Hr; inversion Hr; subst; split; congruence.
  - intros r err. unfold xb_node_query_export. rewrite query_first_cases.
    destruct (xb_silo_query_with_root _ _ _ _) as [e | [| m l]];
      cbn [mem_bind export_of_match]; intros Hr; try discriminate.
    + inversion Hr; subst; split; congruence.
    + unfold xb_node_export in Hr. rewrite returned_empty_slot in Hr.
      destruct (xb_silo_export_with_root _ _ _);
        inversion Hr; subst; split; congruence.
Qed.

End NodeUse.

Module NodeUseFacts.

Import PackedSilo Scenarios MoreScenarios.

Lemma children_finished_is_chain_witness :
  xb_node_get_children 3 (Some (root_view silo_a_bbb))
  = Finished [xb_node_new silo_a_bbb 1%nat; xb_node_new silo_a_bbb 2%nat;
              xb_node_new silo_a_bbb 3%nat]
  /\ (3 <= 3)%nat.
Proof.
  split; [reflexivity |].
  exact (proj2 (children_finished_is_chain 3 (root_view silo_a_bbb) _
                  eq_refl)).
Defined.

Lemma children_of_cyclic_siblings_witness :
  (forall y, y = 1%nat ->
     exists z, xb_silo_node_get_next silo_cyclic y = Some z /\ z = 1%nat)
  /\ xb_silo_node_get_child silo_cyclic 0%nat = Some 1%nat
  /\ xb_node_get_children 1000 (Some (root_view silo_cyclic)) = OutOfFuel.
Proof.
  assert (Hclosed : forall y, y = 1%nat ->
     exists z, xb_silo_node_get_next silo_cyclic y = Some z /\ z = 1%nat).
  { intros y ->. exists 1%nat. split; reflexivity. }
  split; [exact Hclosed |]. split; [reflexivity |].
  exact (children_of_cyclic_siblings (fun y => y = 1%nat)
           (root_view silo_cyclic) 1%nat 1000 Hclosed eq_refl eq_refl).
Defined.

End NodeUseFacts.

(** * The references of a view over its whole life *)

Module LifetimeUse.

Import Lifetime MoreScenarios LifetimeFacts.

Local Open Scope nat_scope.

Lemma held_insert_fresh (d : gmap string nat) (k : string) (b : nat) :
  d !! k = None -> held (<[k := b]> d) ≡ₚ b :: held d.
Proof.
  intros Hk. unfold held.
  rewrite (map_to_list_insert d k b Hk). reflexivity.
Qed.

Lemma count_occ_perm (l1 l2 : list nat) (b : nat) :
  l1 ≡ₚ l2 -> count_occ Nat.eq_dec l1 b = count_occ Nat.eq_dec l2 b.
Proof. intros Hp. now apply (Permutation_count_occ Nat.eq_dec). Qed.

(** Storing [b] under [k] adds one entry that holds [b] and removes the
    entry [k] had. *)
Lemma held_count_insert (d : gmap string nat) (k : string) (b b' : nat) :
  count_occ Nat.eq_dec (held (<[k := b]> d)) b'
  + (if decide (d !! k = Some b') then 1 else 0)
  = count_occ Nat.eq_dec (held d) b' + (if decide (b' = b) then 1 else 0).
Proof.
  destruct (d !! k) as [old |] eqn:Hk.
  - rewrite <- (insert_delete_eq d k b).
    rewrite (count_occ_perm _ _ b'
               (held_insert_fresh (delete k d) k b (lookup_delete_eq d k))).
    rewrite <- (insert_delete_id d k old Hk) at 2.
    rewrite (count_occ_perm _ _ b'
               (held_insert_fresh (delete k d) k old (lookup_delete_eq d k))).
    cbn [count_occ].
    destruct (Nat.eq_dec b b'), (Nat.eq_dec old b');
      repeat case_decide; subst; try congruence; lia.
  - rewrite (count_occ_perm _ _ b' (held_insert_fresh d k b Hk)).
    cbn [count_occ].
    destruct (Nat.eq_dec b b'); repeat case_decide; subst;
      try congruence; lia.
Qed.

Lemma count_of_live (m : gmap nat nat) (a : nat) :
  1 <= count_of m a -> exists r, m !! a = Some r.
Proof.
  unfold count_of. destruct (m !! a) as [r |]; simpl; [eauto | lia].
Qed.

(** One [xb_node_set_data] on a view that holds, for every buffer, as
    many references as it has entries for it. *)
Lemma set_data_keeps_balance (w0 w : World) (self s x : nat)
    (d : gmap string nat) (k : string) (b : nat) :
  nodes w !! self = Some (mkNodeObj 1 s x d) ->
  silos w = silos w0 ->
  (forall b', count_of (buffers w) b'
              = count_of (buffers w0) b' + count_occ Nat.eq_dec (held d) b') ->
  1 <= count_of (buffers w0) b ->
  let w' := xb_node_set_data w (Some self) (Some k) (Some b) in
  nodes w' !! self = Some (mkNodeObj 1 s x (<[k := b]> d))
  /\ silos w' = silos w0
  /\ (forall b', count_of (buffers w') b'
                 = count_of (buffers w0) b'
                   + count_occ Nat.eq_dec (held (<[k := b]> d)) b').
Proof.
  intros Hnode Hsilos Hbal Hlive.
  destruct (count_of_live (buffers w) b) as [r Hr];
    [rewrite Hbal; lia |].
  cbn zeta. unfold xb_node_set_data. rewrite Hnode. cbn [datalist].
  destruct (d !! k) as [old |] eqn:Hk; cbn.
  - split; [apply lookup_insert_eq |]. split; [exact Hsilos |].
    intros b'. rewrite count_of_unref, (count_of_ref _ _ _ _ Hr), Hbal.
    pose proof (held_count_insert d k b b') as Hc. rewrite Hk in Hc.
    repeat case_decide; subst; try congruence; lia.
  - split; [apply lookup_insert_eq |]. split; [exact Hsilos |].
    intros b'. rewrite (count_of_ref _ _ _ _ Hr), Hbal.
    pose proof (held_count_insert d k b b') as Hc. rewrite Hk in Hc.
    repeat case_decide; subst; try congruence; lia.
Qed.

Lemma set_data_all_keeps_balance (w0 : World) (self s x : nat)
    (ops : list (string * nat)) :
  Forall (fun kb => 1 <= count_of (buffers w0) kb.2) ops ->
  forall (w : World) (d : gmap string nat),
    nodes w !! self = Some (mkNodeObj 1 s x d) ->
    silos w = silos w0 ->
    (forall b', count_of (buffers w) b'
                = count_of (buffers w0) b' + count_occ Nat.eq_dec (held d) b') ->
    exists d',
      nodes (set_data_all w self ops) !! self = Some (mkNodeObj 1 s x d')
      /\ silos (set_data_all w self ops) = silos w0
      /\ (forall b', count_of (buffers (set_data_all w self ops)) b'
                     = count_of (buffers w0) b'
                       + count_occ Nat.eq_dec (held d') b').
Proof.
  induction 1 as [| [k b] ops Hb _ IH]; intros w d Hnode Hsilos Hbal.
  - exists d. auto.
  - cbn [set_data_all fold_left fst snd].
    destruct (set_data_keeps_balance w0 w self s x d k b Hnode Hsilos Hbal Hb)
      as (Hnode' & Hsilos' & Hbal').
    exact (IH _ _ Hnode' Hsilos' Hbal').
Qed.

(** X11: a view from [xb_node_new] to its destruction: after any number of
    [xb_node_set_data] with live buffers, every buffer has as many more
    references as the view has entries for it; when the view is
    destroyed every buffer has the count it started with, and the silos
    were never touched. *)
Theorem node_lifetime_balanced (w : World) (s x : nat)
    (ops : list (string * nat))
    (Hlive : Forall (fun kb => 1 <= count_of (buffers w) kb.2) ops) :
  (exists d,
     nodes (set_data_all (xb_node_new w s x).2 (xb_node_new w s x).1 ops)
       !! (xb_node_new w s x).1 = Some (mkNodeObj 1 s x d)
     /\ forall b,
          count_of (buffers (set_data_all (xb_node_new w s x).2
                               (xb_node_new w s x).1 ops)) b
          = count_of (buffers w) b + count_occ Nat.eq_dec (held d) b)
  /\ nodes (node_unref (set_data_all (xb_node_new w s x).2
                          (xb_node_new w s x).1 ops) (xb_node_new w s x).1)
       !! (xb_node_new w s x).1 = None
  /\ silos (node_unref (set_data_all (xb_node_new w s x).2
                          (xb_node_new w s x).1 ops) (xb_node_new w s x).1)
     = silos w
  /\ forall b,
       count_of (buffers (node_unref (set_data_all (xb_node_new w s x).2
                                        (xb_node_new w s x).1 ops)
                            (xb_node_new w s x).1)) b
       = count_of (buffers w) b.
Proof.
  set (self := (xb_node_new w s x).1).
  set (w1 := (xb_node_new w s x).2).
  destruct (set_data_all_keeps_balance w self s x ops Hlive w1 ∅)
    as (d & Hnode & Hsilos & Hbal).
  - unfold w1, self, xb_node_new. cbn. apply lookup_insert_eq.
  - reflexivity.
  - intros b'. unfold w1, xb_node_new, held. cbn.
    rewrite map_to_list_empty. cbn. lia.
  - split; [exists d; split; assumption |].
    unfold node_unref. rewrite Hnode. cbn.
    split; [apply lookup_delete_eq |]. split; [exact Hsilos |].
    intros b. rewrite count_of_unref_all, Hbal. lia.
Qed.

Lemma node_lifetime_balanced_witness :
  Forall (fun kb => 1 <= count_of (buffers world_with_view) kb.2)
    [("k", 5); ("k", 6); ("j", 5)]
  /\ forall b,
       count_of (buffers (node_unref
                            (set_data_all (xb_node_new world_with_view 0 7).2
                               (xb_node_new world_with_view 0 7).1
                               [("k", 5); ("k", 6); ("j", 5)])
                            (xb_node_new world_with_view 0 7).1)) b
       = count_of (buffers world_with_view) b.
Proof.
  assert (Hlive : Forall (fun kb => 1 <= count_of (buffers world_with_view) kb.2)
                    [("k", 5); ("k", 6); ("j", 5)]).
  { repeat constructor; vm_compute; lia. }
  split; [exact Hlive |].
  exact (proj2 (proj2 (proj2 (node_lifetime_balanced world_with_view 0 7
                                [("k", 5); ("k", 6); ("j", 5)] Hlive)))).
Defined.

End LifetimeUse.

(** * More about the command line tool *)

Module XbToolUse.

Import XbTool.

Section ToolUse.

Context {XbSilo XbSiloNode : Type} `{!XbSiloApi XbSilo XbSiloNode}.

Variable lib : @Library XbSilo XbSiloNode.

(** X12: each of the four command words runs its own function. *)
Theorem run_known_command (priv : XbToolPrivate) (values : list string) :
  xb_tool_run lib priv (Some "dump") values = xb_tool_dump lib priv values
  /\ xb_tool_run lib priv (Some "export") values
     = xb_tool_export lib priv values
  /\ xb_tool_run lib priv (Some "query") values = xb_tool_query lib priv values
  /\ xb_tool_run lib priv (Some "compile") values
     = xb_tool_compile lib priv values.
Proof.
  unfold xb_tool_run. rewrite XbToolFacts.cmd_array_sorted.
  repeat split; reflexivity.
Qed.

Lemma add_names_shape (names : list string) (first : string)
    (args : option string) (descr : string)
    (cb : XbToolPrivate -> list string -> outcome) :
  forall i,
    List.map name (add_names names first i args descr cb) = names
    /\ Forall (fun it => arguments it = args /\ callback it = cb)
         (add_names names first i args descr cb)
    /\ List.map description (add_names names first (S i) args descr cb)
       = List.map (fun _ => "Alias to " ++ first) names.
Proof.
  induction names as [| nm names IH]; intros i; cbn [add_names List.map].
  - repeat split; constructor.
  - destruct (IH (S i)) as (Hn & Hf & Hd). repeat split.
    + now rewrite Hn.
    + constructor; [split; reflexivity | exact Hf].
    + f_equal. exact Hd.
Qed.

(** X13: [xb_tool_add] leaves the commands already there as they are and
    appends one command per comma-separated name, all with the same
    arguments and function; the first keeps the description, the others
    are described as its aliases. *)
Theorem xb_tool_add_aliases (array : list FuUtilItem) (nm : string)
    (args : option string) (descr : string)
    (cb : XbToolPrivate -> list string -> outcome) :
  exists items,
    xb_tool_add array nm args descr cb = (array ++ items)%list
    /\ List.map name items = g_strsplit_comma nm
    /\ Forall (fun it => arguments it = args /\ callback it = cb) items
    /\ List.map description items
       = match g_strsplit_comma nm with
         | [] => []
         | first :: rest =>
             descr :: List.map (fun _ => "Alias to " ++ first) rest
         end.
Proof.
  unfold xb_tool_add.
  exists (add_names (g_strsplit_comma nm) (hd EmptyString (g_strsplit_comma nm))
            0 args descr cb).
  destruct (add_names_shape (g_strsplit_comma nm)
              (hd EmptyString (g_strsplit_comma nm)) args descr cb 0)
    as (Hn & Hf & _).
  repeat split; try assumption.
  destruct (g_strsplit_comma nm) as [| first rest]; [reflexivity |].
  cbn [add_names List.map description hd]. f_equal.
  exact (proj2 (proj2 (add_names_shape rest first args descr cb 0))).
Qed.

Lemma string_app_cons (x : ascii) (a b : string) :
  String x a ++ b = String x (a ++ b).
Proof. reflexivity. Qed.

Lemma string_length_app (a b : string) :
  String.length (a ++ b) = (String.length a + String.length b)%nat.
Proof.
  induction a as [| c a IH]; [reflexivity |].
  rewrite string_app_cons. cbn [String.length]. now rewrite IH.
Qed.

Lemma string_app_assoc (a b c : string) : (a ++ b) ++ c = a ++ b ++ c.
Proof.
  induction a as [| x a IH]; [reflexivity |].
  rewrite !string_app_cons. now rewrite IH.
Qed.

Lemma spaces_length (n : nat) : String.length (spaces n) = n.
Proof. induction n as [| n IH]; simpl; [reflexivity | now rewrite IH]. Qed.

Lemma description_column_body (item : FuUtilItem) :
  exists body, describe_item item = body ++ newline.
Proof.
  unfold describe_item.
  destruct (arguments item) as [a |];
    match goal with
    | |- context [if ?c then _ else _] => destruct c
    end;
    eexists; rewrite <- !string_app_assoc; reflexivity.
Qed.

(** X14: in the list of commands the description starts in column 32: after
    the name and the arguments, padded to 32 characters when they are
    shorter than 31, and otherwise on a line of its own behind 32
    spaces. *)
Theorem description_column (item : FuUtilItem) :
  let head :=
    "  " ++ name item
    ++ match arguments item with Some a => " " ++ a | None => EmptyString end in
  exists pad,
    describe_item item = head ++ pad ++ description item ++ newline
    /\ ((String.length head < 31)%nat
        /\ pad = spaces (32 - String.length head)
        /\ String.length (head ++ pad) = 32%nat
        \/ (31 <= String.length head)%nat
           /\ pad = newline ++ spaces 32).
Proof.
  cbn zeta. unfold describe_item.
  destruct (arguments item) as [a |].
  - assert (Hlen : String.length ("  " ++ name item ++ " " ++ a)
                   = (String.length (name item) + 2 + String.length a + 1)%nat)
      by (rewrite !string_length_app; cbn [String.length]; lia).
    rewrite Hlen.
    destruct (Nat.ltb_spec
                (String.length (name item) + 2 + String.length a + 1) 31)
      as [Hshort | Hlong].
    + exists (spaces (32 - (String.length (name item) + 2
                            + String.length a + 1))).
      split; [rewrite !string_app_assoc; reflexivity |].
      left. split; [exact Hshort |]. split; [reflexivity |].
      rewrite string_length_app, Hlen, spaces_length. lia.
    + exists (newline ++ spaces 32).
      split; [rewrite !string_app_assoc; reflexivity |].
      right. split; [exact Hlong | reflexivity].
  - assert (Hlen : String.length ("  " ++ name item ++ EmptyString)
                   = (String.length (name item) + 2)%nat)
      by (rewrite !string_length_app; cbn [String.length]; lia).
    rewrite Hlen.
    destruct (Nat.ltb_spec (String.length (name item) + 2) 31)
      as [Hshort | Hlong].
    + exists (spaces (32 - (String.length (name item) + 2))).
      split; [rewrite !string_app_assoc; reflexivity |].
      left. split; [exact Hshort |]. split; [reflexivity |].
      rewrite string_length_app, Hlen, spaces_length. lia.
    + exists (newline ++ spaces 32).
      split; [rewrite !string_app_assoc; reflexivity |].
      right. split; [exact Hlong | reflexivity].
Qed.

Lemma substring_prefix (a b : string) :
  String.substring 0 (String.length a) (a ++ b) = a.
Proof.
  induction a as [| c a IH]; [now destruct b |].
  rewrite string_app_cons. cbn [String.length String.substring].
  now rewrite IH.
Qed.

Lemma concat_ends_line (items : list FuUtilItem) :
  items <> [] ->
  exists body,
    String.concat EmptyString (List.map describe_item items) = body ++ newline.
Proof.
  induction items as [| item items IH]; [congruence |]. intros _.
  destruct items as [| item' items].
  - cbn [List.map String.concat]. apply description_column_body.
  - destruct (IH ltac:(discriminate)) as (body & Hb).
    cbn [List.map String.concat] in *. rewrite Hb.
    exists (describe_item item ++ body).
    change (EmptyString ++ body ++ newline) with (body ++ newline).
    now rewrite string_app_assoc.
Qed.

(** X15: the summary of the commands is their descriptions one after the
    other, without the newline of the last one. *)
Theorem descriptions_drop_last_newline (array : list FuUtilItem)
    (Hne : array <> []) :
  xb_tool_get_descriptions array ++ newline
  = String.concat EmptyString (List.map describe_item array).
Proof.
  unfold xb_tool_get_descriptions.
  destruct (concat_ends_line array Hne) as (body & ->).
  rewrite string_length_app. cbn [String.length newline].
  replace (String.length body + 1 - 1)%nat with (String.length body) by lia.
  now rewrite substring_prefix.
Qed.

Lemma dump_loop_all_rounds (first : string) (flags : XbSiloLoadFlags)
    (silo : XbSilo) (str : string) :
  xb_silo_load_from_file lib first flags = inr silo ->
  xb_silo_to_string lib silo = inr str ->
  forall rounds printed,
    dump_loop lib rounds first flags printed
    = ((printed ++ repeat str (length rounds))%list, inr tt).
Proof.
  intros Hload Hstr rounds.
  induction rounds as [| r rounds IH]; intros printed; cbn [dump_loop].
  - now rewrite app_nil_r.
  - rewrite Hload, Hstr, IH. unfold g_print. now rewrite <- app_assoc.
Qed.

Lemma export_loop_all_rounds (first : string) (flags : XbSiloLoadFlags)
    (silo : XbSilo) (str : string) :
  xb_silo_load_from_file lib first flags = inr silo ->
  xb_silo_export lib silo
    [XB_NODE_EXPORT_FLAG_ADD_HEADER; XB_NODE_EXPORT_FLAG_FORMAT_MULTILINE;
     XB_NODE_EXPORT_FLAG_FORMAT_INDENT; XB_NODE_EXPORT_FLAG_INCLUDE_SIBLINGS]
  = inr str ->
  forall rounds printed,
    export_loop lib rounds first flags printed
    = ((printed ++ repeat str (length rounds))%list, inr tt).
Proof.
  intros Hload Hstr rounds.
  induction rounds as [| r rounds IH]; intros printed; cbn [export_loop].
  - now rewrite app_nil_r.
  - rewrite Hload, Hstr, IH. unfold g_print. now rewrite <- app_assoc.
Qed.

(** X16: [dump] opens its first argument once per argument and never the
    others: it fails, with nothing printed, when the first file does not
    load or does not dump, and otherwise prints the dump of the first
    file as many times as there are arguments. *)
Theorem dump_repeats_first_file (priv : XbToolPrivate) (first : string)
    (rest : list string) :
  xb_tool_dump lib priv (first :: rest)
  = match xb_silo_load_from_file lib first (load_flags priv) with
    | inl e => ([], inl e)
    | inr silo =>
        match xb_silo_to_string lib silo with
        | inl e => ([], inl e)
        | inr str => (repeat str (S (length rest)), inr tt)
        end
    end.
Proof.
  unfold xb_tool_dump.
  destruct (xb_silo_load_from_file lib first (load_flags priv))
    as [e | silo] eqn:Hload; [cbn [dump_loop]; now rewrite Hload |].
  destruct (xb_silo_to_string lib silo) as [e | str] eqn:Hstr.
  - cbn [dump_loop]. now rewrite Hload, Hstr.
  - now rewrite (dump_loop_all_rounds first _ silo str Hload Hstr).
Qed.

(** X17: the same for [export], with the four export flags. *)
Theorem export_repeats_first_file (priv : XbToolPrivate) (first : string)
    (rest : list string) :
  xb_tool_export lib priv (first :: rest)
  = match xb_silo_load_from_file lib first (load_flags priv) with
    | inl e => ([], inl e)
    | inr silo =>
        match xb_silo_export lib silo
                [XB_NODE_EXPORT_FLAG_ADD_HEADER;
                 XB_NODE_EXPORT_FLAG_FORMAT_MULTILINE;
                 XB_NODE_EXPORT_FLAG_FORMAT_INDENT;
                 XB_NODE_EXPORT_FLAG_INCLUDE_SIBLINGS] with
        | inl e => ([], inl e)
        | inr str => (repeat str (S (length rest)), inr tt)
        end
    end.
Proof.
  unfold xb_tool_export.
  destruct (xb_silo_load_from_file lib first (load_flags priv))
    as [e | silo] eqn:Hload; [cbn [export_loop]; now rewrite Hload |].
  destruct (xb_silo_export lib silo _) as [e | str] eqn:Hstr.
  - cbn [export_loop]. now rewrite Hload, Hstr.
  - now rewrite (export_loop_all_rounds first _ silo str Hload Hstr).
Qed.

(** X18: without a command word after the program name, [main] fails with
    [Command not found] and the help. *)
Theorem main_without_command (argv argv' : list string) (verbose force_ : bool)
    (Hparse : g_option_context_parse lib argv = inr (verbose, force_, argv'))
    (Hshort : (length argv' <= 1)%nat) :
  main lib argv
  = (EXIT_FAILURE,
     ["Command not found" ++ newline ++ newline ++ help_text lib]).
Proof.
  unfold main. rewrite Hparse.
  assert (Hnone : nth_error argv' 1 = None)
    by (apply nth_error_None; exact Hshort).
  rewrite Hnone.
  rewrite XbToolFacts.run_unknown_command by discriminate.
  reflexivity.
Qed.

Lemma import_loop_app (l1 l2 : list string) :
  forall b,
    import_loop lib (l1 ++ l2)%list b
    = match import_loop lib l1 b with
      | inl e => inl e
      | inr b' => import_loop lib l2 b'
      end.
Proof.
  induction l1 as [| f l1 IH]; intros b; cbn [import_loop app];
    [reflexivity |].
  destruct (xb_builder_import_file lib b f); [reflexivity | apply IH].
Qed.

(** X19: [compile] imports its inputs in order, each into the builder the one
    before left; the first import that fails ends the command with that
    error, whatever follows, and nothing is printed. *)
Theorem compile_stops_at_failed_import (priv : XbToolPrivate) (dst f : string)
    (pre post : list string) (b : XbBuilder lib) (e : GError)
    (Hpre : import_loop lib pre (xb_builder_new lib) = inr b)
    (Hf : xb_builder_import_file lib b f = inl e) :
  xb_tool_compile lib priv (dst :: pre ++ f :: post)%list = ([], inl e).
Proof.
  assert (Hall : import_loop lib (pre ++ f :: post)%list (xb_builder_new lib)
                 = inl e).
  { rewrite import_loop_app, Hpre. cbn [import_loop]. now rewrite Hf. }
  unfold xb_tool_compile.
  destruct (pre ++ f :: post)%list as [| i inputs] eqn:Hin;
    [now destruct pre |].
  now rewrite Hall.
Qed.

End ToolUse.

Import PackedSilo Scenarios MoreScenarios.

Lemma descriptions_drop_last_newline_witness :
  cmd_array demo_library <> []
  /\ xb_tool_get_descriptions (cmd_array demo_library) ++ newline
     = String.concat EmptyString
         (List.map describe_item (cmd_array demo_library)).
Proof.
  assert (Hne : cmd_array demo_library <> []) by discriminate.
  split; [exact Hne |].
  exact (descriptions_drop_last_newline (cmd_array demo_library) Hne).
Defined.

Lemma main_without_command_witness :
  g_option_context_parse demo_library ["xb-tool"; "-v"]
  = inr (true, false, ["xb-tool"])
  /\ (length ["xb-tool"] <= 1)%nat
  /\ (main demo_library ["xb-tool"; "-v"]).1 = 1.
Proof.
  split; [reflexivity |]. split; [simpl; lia |].
  exact (f_equal fst
           (main_without_command demo_library ["xb-tool"; "-v"] ["xb-tool"]
              true false eq_refl ltac:(simpl; lia))).
Defined.

Lemma compile_stops_at_failed_import_witness :
  import_loop strict_library ["a.xml"] (xb_builder_new strict_library)
  = inr ["a.xml"]
  /\ xb_builder_import_file strict_library ["a.xml"] "bad.xml"
     = inl (mkGError G_IO_ERROR G_IO_ERROR_NOT_FOUND "No such file")
  /\ xb_tool_compile strict_library (mkPriv false)
       ["out.xmlb"; "a.xml"; "bad.xml"; "c.xml"]
     = ([], inl (mkGError G_IO_ERROR G_IO_ERROR_NOT_FOUND "No such file")).
Proof.
  split; [reflexivity |]. split; [reflexivity |].
  exact (compile_stops_at_failed_import strict_library (mkPriv false)
           "out.xmlb" "bad.xml" ["a.xml"] ["c.xml"] ["a.xml"]
           (mkGError G_IO_ERROR G_IO_ERROR_NOT_FOUND "No such file")
           eq_refl eq_refl).
Defined.

End XbToolUse.

(** * The integer of a text, in full *)

Section UintTheory.

Context {XbSilo XbSiloNode : Type} `{!XbSiloApi XbSilo XbSiloNode}.

Local Abbreviation Node := (XbNode XbSilo XbSiloNode).


End UintTheory.

Module UintScenarios.

Import PackedSilo Scenarios.

(** Without a match: [G_MAXUINT64] and the not-found of the evaluator. *)
Example uint_of_missing_match :
  xb_node_query_text_as_uint (Some (root_view (silo_a_b "nope")))
    (Some "c") None
  = Defined (G_MAXUINT64,
             Some (mkGError G_IO_ERROR G_IO_ERROR_NOT_FOUND "no results")).
Proof. reflexivity. Qed.

(** With upper-case digits behind the prefix. *)
Example uint_of_upper_hex_text :
  xb_node_query_text_as_uint (Some (root_view (silo_a_b "0xFF")))
    (Some "b") None
  = Defined (255, None).
Proof. reflexivity. Qed.

End UintScenarios.
